(** * A shallow embedding of [web_crawler.py]

    The crawler of the workshop repository: [stream_text] (the filter that
    drops style blocks), [extract_links] (parser pass, pattern pass and
    deduplication), [fetch] (decoding of the body), [try_llms_txt] and
    [crawl].

    A Python [str] is a sequence of Unicode code points, modelled as a list
    of [N]; [bytes] is a list of [Byte.byte].  The string methods the
    program calls ([lower], [strip], [rstrip], [splitlines], [rfind], [in],
    [endswith]) and the one regular expression it uses are written out as
    functions.  The parts of the standard library that the program only
    calls through are left open: [HTMLParser]'s tokenizer, the resolution
    step of [urljoin] and [urlparse(...).scheme] are the fields of the
    class [Library], and what [urlopen] answers is a function, the web.

    Effects are a state monad over the log of requests and prints, with
    exceptions: [URLError] and [HTTPError], which the source catches around
    [fetch]; [LookupError], which it catches around the decoding; and the
    exceptions of other classes that [fetch] lets through and nothing
    catches ([ValueError] from the constructor of [Request], [InvalidURL]
    from [http.client], a timeout or a short body while reading).
    [HTMLParser.feed], [urljoin] and [urlparse] are taken where they return:
    a run in which one of them raises is not described, and neither are the
    interrupt from the keyboard and the pauses of [time.sleep].  The loops
    of [crawl] need not end; they run on fuel, and a run that is cut off is
    [Unfinished]. *)

From Stdlib Require Import NArith ZArith List Lia Bool.
From stdpp Require Import base decidable list gmap strings.
Import ListNotations.

Local Open Scope N_scope.

(** ** Python strings *)

Module Py.

(** A code point and a text. *)
Abbreviation char := N (only parsing).
Abbreviation str := (list N) (only parsing).

(** A literal of the source, character by character (the literals of the
    program are all ASCII). *)
Fixpoint py (s : string) : str :=
  match s with
  | EmptyString => []
  | String a s' => Ascii.N_of_ascii a :: py s'
  end.

(** [not s], for a text. *)
Definition is_empty (s : str) : bool :=
  match s with [] => true | _ :: _ => false end.

(** [str.isspace] on one code point: the characters that [strip], [rstrip]
    and the pattern class [\s] take for whitespace. *)
Definition isspace (c : char) : bool :=
  ((9 <=? c) && (c <=? 13)) || ((28 <=? c) && (c <=? 32))
  || (c =? 133) || (c =? 160) || (c =? 5760)
  || ((8192 <=? c) && (c <=? 8202))
  || (c =? 8232) || (c =? 8233) || (c =? 8239) || (c =? 8287) || (c =? 12288).

(** The line boundaries of [str.splitlines], the pair CR LF apart. *)
Definition is_linebreak (c : char) : bool :=
  ((10 <=? c) && (c <=? 13)) || ((28 <=? c) && (c <=? 30))
  || (c =? 133) || (c =? 8232) || (c =? 8233).

(** [str.lower] on one code point.  The letters A-Z move to a-z; U+0130
    (capital I with dot above) is the one code point whose lowercase form is
    two code points, [i] followed by U+0307; U+212A (Kelvin sign) is the one
    code point outside Basic Latin whose lowercase form is inside it.  Every
    other cased code point has a single lowercase code point outside Basic
    Latin and is left in place here: the program only searches the lowered
    text for ASCII literals and reads positions off it, and neither changes
    when such a code point is replaced by another one. *)
Definition lower_cp (c : char) : str :=
  if (65 <=? c) && (c <=? 90) then [c + 32]
  else if c =? 304 then [105; 775]
  else if c =? 8490 then [107]
  else [c].

Fixpoint lower (s : str) : str :=
  match s with
  | [] => []
  | c :: s' => lower_cp c ++ lower s'
  end.

(** [s.lstrip()], [s.rstrip()], [s.strip()]. *)
Fixpoint lstrip (s : str) : str :=
  match s with
  | [] => []
  | c :: s' => if isspace c then lstrip s' else s
  end.

Definition rstrip (s : str) : str := rev (lstrip (rev s)).

Definition strip (s : str) : str := rstrip (lstrip s).

(** [s.startswith(pre)] and [s.endswith(suf)]. *)
Fixpoint startswith (s pre : str) : bool :=
  match pre, s with
  | [], _ => true
  | _ :: _, [] => false
  | p :: pre', c :: s' => (c =? p) && startswith s' pre'
  end.

Definition endswith (s suf : str) : bool := startswith (rev s) (rev suf).

(** [sub in s]. *)
Fixpoint contains (sub s : str) : bool :=
  startswith s sub ||
  match s with
  | [] => false
  | _ :: s' => contains sub s'
  end.

(** [s.rfind(sub)]: the highest index at which [sub] starts, or -1. *)
Fixpoint rfind (s sub : str) : Z :=
  match s with
  | [] => if startswith [] sub then 0%Z else (-1)%Z
  | _ :: s' =>
      let r := rfind s' sub in
      if (0 <=? r)%Z then (r + 1)%Z
      else if startswith s sub then 0%Z else (-1)%Z
  end.

(** [s[k:]], with Python's reading of a negative or too large index. *)
Definition slice_from (k : Z) (s : str) : str :=
  let n := Z.of_nat (length s) in
  let k' := if (k <? 0)%Z then Z.max 0 (k + n) else k in
  drop (Z.to_nat k') s.

(** [s.splitlines()]: [cur] holds the current line, last character first. *)
Fixpoint splitlines_from (cur : str) (s : str) : list str :=
  match s with
  | [] => if is_empty cur then [] else [rev cur]
  | c :: rest =>
      if is_linebreak c then
        match rest with
        | d :: rest' =>
            if (c =? 13) && (d =? 10)
            then rev cur :: splitlines_from [] rest'
            else rev cur :: splitlines_from [] rest
        | [] => [rev cur]
        end
      else splitlines_from (c :: cur) rest
  end.

Definition splitlines (s : str) : list str := splitlines_from [] s.

End Py.

Import Py.

(** ** The style-aware streamer: [stream_text] *)

Module Streamer.

Definition style_open : str := py "<style".
Definition style_close : str := py "</style>".

(** [end_pos = lower.rfind("</style>")] and
    [after = line[end_pos + len("</style>"):].strip()]: the position is read
    off the lowered copy and applied to the line itself. *)
Definition after_close (line lowered : str) : str :=
  let end_pos := rfind lowered style_close in
  strip (slice_from (end_pos + Z.of_nat (length style_close)) line).

(** [if after: print(after)]. *)
Definition print_if_nonempty (after : str) : list str :=
  if is_empty after then [] else [after].

(** One turn of the [for raw_line in html.splitlines()] loop: the new value
    of [in_style] and the lines printed. *)
Definition stream_line (in_style : bool) (raw_line : str) : bool * list str :=
  let line := rstrip raw_line in
  if is_empty line then (in_style, [])
  else
    let lowered := lower line in
    if contains style_open lowered then
      if contains style_close lowered
      then (false, print_if_nonempty (after_close line lowered))
      else (true, [])
    else if in_style then
      if contains style_close lowered
      then (false, print_if_nonempty (after_close line lowered))
      else (true, [])
    else (false, [line]).

Fixpoint stream_loop (in_style : bool) (lines : list str) : list str :=
  match lines with
  | [] => []
  | raw_line :: rest =>
      let '(in_style', printed) := stream_line in_style raw_line in
      printed ++ stream_loop in_style' rest
  end.

(** The lines that the loop of [stream_text] prints for a page, in order
    ([in_style = False] before the loop). *)
Definition stream_lines (html : str) : list str :=
  stream_loop false (splitlines html).

End Streamer.

(** ** Searching a text, letter case apart *)

Module Ci.

(** [c] is the pattern character [p], or the capital letter of [p]. *)
Definition ci_char (c p : char) : bool :=
  (c =? p) || ((65 <=? c) && (c <=? 90) && (c + 32 =? p)).

(** The pattern characters for which a search of the lowered text is a
    search of the text itself, letter case apart: ASCII, no capital, and
    neither [i] nor [k], which U+0130 and U+212A also lower to.  The
    literals of the program have only such characters. *)
Definition plain (p : char) : bool :=
  (p <? 128) && negb ((65 <=? p) && (p <=? 90))
  && negb (p =? 105) && negb (p =? 107).

(** [pat] stands at the start of [s], letter case apart. *)
Fixpoint ci_prefix (pat s : str) : bool :=
  match pat, s with
  | [], _ => true
  | _ :: _, [] => false
  | p :: pat', c :: s' => ci_char c p && ci_prefix pat' s'
  end.

(** [pat] occurs in [s], letter case apart. *)
Fixpoint ci_in (pat s : str) : bool :=
  ci_prefix pat s ||
  match s with
  | [] => false
  | _ :: s' => ci_in pat s'
  end.

(** Everything after the last occurrence of [pat] in [s], letter case
    apart; [None] when there is no occurrence. *)
Fixpoint after_last (pat s : str) : option str :=
  match s with
  | [] => if ci_prefix pat [] then Some [] else None
  | _ :: s' =>
      match after_last pat s' with
      | Some r => Some r
      | None => if ci_prefix pat s then Some (drop (length pat) s) else None
      end
  end.

End Ci.

(** ** The streamer as the specification words it

    A machine with the two states [Normal] and [InStyle], one transition per
    line, markers found by a case-insensitive search of the line itself. *)

Module StyleSpec.

Import Ci.

Inductive mode := Normal | InStyle.

(** The state that a value of the flag [in_style] stands for. *)
Definition mode_of (in_style : bool) : mode :=
  if in_style then InStyle else Normal.

Definition flag_of (m : mode) : bool :=
  match m with InStyle => true | Normal => false end.

(** The trimmed remainder after the last close marker, emitted when it is
    not empty. *)
Definition remainder (line : str) : list str :=
  match after_last Streamer.style_close line with
  | Some r => if is_empty (strip r) then [] else [strip r]
  | None => []
  end.

(** One transition, on a line already trimmed and not blank. *)
Definition transition (m : mode) (line : str) : mode * list str :=
  match m with
  | Normal =>
      if ci_in Streamer.style_open line then
        if ci_in Streamer.style_close line
        then (Normal, remainder line)
        else (InStyle, [])
      else (Normal, [line])
  | InStyle =>
      if ci_in Streamer.style_close line
      then (Normal, remainder line)
      else (InStyle, [])
  end.

Fixpoint machine (m : mode) (lines : list str) : list str :=
  match lines with
  | [] => []
  | raw :: rest =>
      let line := rstrip raw in
      if is_empty line then machine m rest
      else
        let '(m', emitted) := transition m line in
        emitted ++ machine m' rest
  end.

Definition emitted_lines (text : str) : list str :=
  machine Normal (splitlines text).

End StyleSpec.

(** ** Decoding the body: [bytes.decode] *)

Module Codec.

(** The exceptions the program names: the two classes of [urllib.error]
    that it catches around [fetch], and the errors of [bytes.decode]. *)
Inductive url_error :=
| URLError (reason : str)
| HTTPError (code : N) (msg : str).

(** Exceptions that [fetch] can raise and that are of neither class:
    [ValueError] from [urllib.request.Request] for an address without a
    scheme, [http.client.InvalidURL] for an address with a blank or a
    control character, [TimeoutError] and [http.client.IncompleteRead] while
    the answer is read.  The program has no handler for them. *)
Inductive stray :=
| ValueError
| InvalidURL
| TimeoutError
| IncompleteRead.

Inductive exn :=
| UrlError (e : url_error)
| LookupError
| UnicodeDecodeError
| Stray (x : stray).

(** What a call gives back: a value, or the exception it raises. *)
Inductive result (A : Type) :=
| Ok (a : A)
| Raised (e : exn).
Arguments Ok {A} a.
Arguments Raised {A} e.

Inductive codec := Utf8 | Latin1.
Inductive handler := Strict | Replace | Ignore.

(** The codec registry and the registry of error handlers, on the names the
    program passes; a name that is not registered is a [LookupError]. *)
Definition lookup_codec (encoding : string) : option codec :=
  if String.eqb encoding "utf-8" then Some Utf8
  else if String.eqb encoding "latin-1" then Some Latin1
  else None.

Definition lookup_error (errors : string) : option handler :=
  if String.eqb errors "strict" then Some Strict
  else if String.eqb errors "replace" then Some Replace
  else if String.eqb errors "ignore" then Some Ignore
  else None.

Definition bytes := list Byte.byte.

Definition is_continuation (b : N) : bool := (128 <=? b) && (b <=? 191).

(** The second byte of a three-byte or four-byte sequence is refused when
    it is no continuation byte, when it makes the sequence overlong, when it
    leads into the surrogates or beyond U+10FFFF. *)
Definition bad_second3 (b0 b1 : N) : bool :=
  negb (is_continuation b1) || (if b1 <? 160 then b0 =? 224 else b0 =? 237).

Definition bad_second4 (b0 b1 : N) : bool :=
  negb (is_continuation b1) || (if b1 <? 144 then b0 =? 240 else b0 =? 244).

Definition low6 (b : N) : N := N.land b 63.

(** One step of the UTF-8 decoder at the head of the input: either a code
    point and the number of bytes it takes, or the number of bytes of the
    ill-formed run that the error handler is called on. *)
Inductive step :=
| Char (c : N) (width : nat)
| Invalid (width : nat).

Definition utf8_step (b0 : N) (rest : list N) : step :=
  if b0 <? 128 then Char b0 1
  else if b0 <? 194 then Invalid 1
  else if b0 <? 224 then
    match rest with
    | [] => Invalid 1
    | b1 :: _ =>
        if is_continuation b1
        then Char (N.lor (N.shiftl (N.land b0 31) 6) (low6 b1)) 2
        else Invalid 1
    end
  else if b0 <? 240 then
    match rest with
    | [] => Invalid 1
    | b1 :: rest1 =>
        if bad_second3 b0 b1 then Invalid 1
        else
          match rest1 with
          | [] => Invalid 2
          | b2 :: _ =>
              if is_continuation b2
              then Char (N.lor (N.shiftl (N.land b0 15) 12)
                           (N.lor (N.shiftl (low6 b1) 6) (low6 b2))) 3
              else Invalid 2
          end
    end
  else if b0 <? 245 then
    match rest with
    | [] => Invalid 1
    | b1 :: rest1 =>
        if bad_second4 b0 b1 then Invalid 1
        else
          match rest1 with
          | [] => Invalid 2
          | b2 :: rest2 =>
              if negb (is_continuation b2) then Invalid 2
              else
                match rest2 with
                | [] => Invalid 3
                | b3 :: _ =>
                    if is_continuation b3
                    then Char (N.lor (N.shiftl (N.land b0 7) 18)
                                 (N.lor (N.shiftl (low6 b1) 12)
                                    (N.lor (N.shiftl (low6 b2) 6) (low6 b3)))) 4
                    else Invalid 3
                end
          end
    end
  else Invalid 1.

(** The decoder loop.  [skip] counts the bytes of the current sequence that
    are still to be passed over. *)
Fixpoint utf8_loop (h : option handler) (skip : nat) (bs : list N) : result str :=
  match bs with
  | [] => Ok []
  | b0 :: rest =>
      match skip with
      | S k => utf8_loop h k rest
      | O =>
          match utf8_step b0 rest with
          | Char c width =>
              match utf8_loop h (width - 1) rest with
              | Ok s => Ok (c :: s)
              | Raised e => Raised e
              end
          | Invalid width =>
              match h with
              | None => Raised LookupError
              | Some Strict => Raised UnicodeDecodeError
              | Some Replace =>
                  match utf8_loop h (width - 1) rest with
                  | Ok s => Ok (65533 :: s)
                  | Raised e => Raised e
                  end
              | Some Ignore => utf8_loop h (width - 1) rest
              end
          end
      end
  end.

(** [content_bytes.decode(encoding, errors=errors)]. *)
Definition decode (content_bytes : bytes) (encoding errors : string) : result str :=
  match lookup_codec encoding with
  | None => Raised LookupError
  | Some Utf8 => utf8_loop (lookup_error errors) 0 (map Byte.to_N content_bytes)
  | Some Latin1 => Ok (map Byte.to_N content_bytes)
  end.

(** [try: text = attempt  except LookupError: text = fallback]. *)
Definition except_lookup (attempt fallback : result str) : result str :=
  match attempt with
  | Raised LookupError => fallback
  | r => r
  end.

(** The decoding step of [fetch]. *)
Definition decode_body (content_bytes : bytes) : result str :=
  except_lookup (decode content_bytes "utf-8" "replace")
                (decode content_bytes "latin-1" "replace").

(** The text of a body, for stating what [fetch] returns. *)
Definition decoded (content_bytes : bytes) : str :=
  match decode_body content_bytes with
  | Ok text => text
  | Raised _ => []
  end.

End Codec.

(** ** The fallback pattern

    [re.findall(pattern, html, flags=re.IGNORECASE)], where the pattern reads:
    the letters [href], [\s*], an equals sign, [\s*], one character of the
    class of the two quote characters, a group of one or more characters
    outside that class, one character of the class again. *)

Module Pattern.

(** The class of the pattern: the double quote and the single quote. *)
Definition is_quote (c : char) : bool := (c =? 34) || (c =? 39).

(** A letter of the pattern under [re.IGNORECASE]: the small letter [p]
    matches itself and its capital. *)
Definition letter (p c : char) : bool := (c =? p) || (c + 32 =? p).

(** [\s*]: the engine takes every whitespace character in reach; giving one
    back never helps, the next item of the pattern being no whitespace. *)
Fixpoint skip_spaces (s : str) : str :=
  match s with
  | [] => []
  | c :: s' => if isspace c then skip_spaces s' else s
  end.

(** The negated class, repeated: the longest run without a quote, and what
    follows it.  The run cannot be cut short either, the item after it being
    a quote. *)
Fixpoint span_value (s : str) : str * str :=
  match s with
  | [] => ([], [])
  | c :: s' =>
      if is_quote c then ([], s)
      else let '(v, rest) := span_value s' in (c :: v, rest)
  end.

(** The pattern tried at the head of [s]: the captured group and the number
    of characters after the first that the match takes. *)
Definition match_here (s : str) : option (str * nat) :=
  match s with
  | h :: r :: e :: f :: s1 =>
      if letter 104 h && letter 114 r && letter 101 e && letter 102 f then
        match skip_spaces s1 with
        | eq :: s2 =>
            if eq =? 61 then
              match skip_spaces s2 with
              | q :: s3 =>
                  if is_quote q then
                    match span_value s3 with
                    | ((_ :: _) as v, q' :: rest) =>
                        if is_quote q'
                        then Some (v, length s - length rest - 1)%nat
                        else None
                    | _ => None
                    end
                  else None
              | [] => None
              end
            else None
        | [] => None
        end
      else None
  | _ => None
  end.

(** [findall]: the leftmost match, then the search again from its end.
    [inside] counts the characters ahead that the last match has taken. *)
Fixpoint findall_from (inside : nat) (s : str) : list str :=
  match s with
  | [] => []
  | _ :: s' =>
      match inside with
      | S k => findall_from k s'
      | O =>
          match match_here s with
          | Some (v, n) => v :: findall_from n s'
          | None => findall_from 0 s'
          end
      end
  end.

Definition findall (s : str) : list str := findall_from 0 s.

(** The texts that the pattern describes, as a reader of the pattern lists
    them: the word [href] in any letter case, whitespace, an equals sign,
    whitespace, a quote of either kind, the value [v] of one or more
    characters that are no quotes, a quote of either kind. *)
Definition href_word (w : str) : Prop :=
  Forall2 (fun c p => letter p c = true) w (py "href").

Inductive occurrence (occ v : str) : Prop :=
| Occurrence (word space1 space2 : str) (q q' : char) :
    occ = word ++ space1 ++ [61] ++ space2 ++ [q] ++ v ++ [q'] ->
    href_word word ->
    forallb isspace space1 = true ->
    forallb isspace space2 = true ->
    is_quote q = true ->
    is_quote q' = true ->
    v <> [] ->
    forallb (fun c => negb (is_quote c)) v = true ->
    occurrence occ v.

(** No match of the pattern starts in the first [n] positions of [s]. *)
Definition unmatched_before (n : nat) (s : str) : Prop :=
  forall i, (i < n)%nat -> match_here (drop i s) = None.

(** Every match of the pattern that starts in the first [n] positions of
    [s] also ends there: none of them reaches position [n]. *)
Definition clear_before (n : nat) (s : str) : Prop :=
  forall i v k,
    (i < n)%nat -> match_here (drop i s) = Some (v, k) -> (i + S k <= n)%nat.

End Pattern.

(** ** The library behind the crawler *)

(** The calls that leave the program.  [feed html] is the sequence of
    [handle_starttag(tag, attrs)] calls that [HTMLParser.feed] makes on
    [html], an attribute without a value carrying [None]; [resolve] is
    [urljoin] on two texts that are both non-empty; [url_scheme link] is
    [urlparse(link).scheme]. *)
Class Library := {
  feed : str -> list (str * list (str * option str));
  resolve : str -> str -> str;
  url_scheme : str -> str
}.

(** What lines 54 to 58 of [fetch] come to for an address: a response (the
    address after redirects, the [Content-Type] header or the empty text,
    the bytes read); an error of [urllib.error] out of [urlopen]; an address
    for which [Request] raises [ValueError], so that [urlopen] is not
    called; an exception of another class out of [urlopen] or
    [resp.read]. *)
Inductive response :=
| Response (final_url content_type : str) (content_bytes : Codec.bytes)
| Refused (e : Codec.url_error)
| Malformed
| Broken (x : Codec.stray).

(** What the program prints, one constructor per [print] call of the
    source; [ErrorFetch] goes to [sys.stderr], the rest to standard output. *)
Inductive message :=
| Rule
| Visiting (url : str)
| Line (text : str)
| EndOfPage
| InfoChecking (llms_url : str)
| InfoNotText
| HashRule
| FoundAt (final_url : str) (size : nat)
| Manifest (text : str)
| InfoStopping
| InfoNoLlms
| ErrorFetch (url : str) (e : Codec.url_error)
| Skip (final_url content_type : str)
| InfoFetched (final_url : str) (size : nat) (content_type : str)
| InfoFound (count : nat) (final_url : str).

(** Where a message goes. *)
Inductive stream := Stdout | Stderr.

Definition sink (m : message) : stream :=
  match m with
  | ErrorFetch _ _ => Stderr
  | _ => Stdout
  end.

Inductive event :=
| Request (url : str)
| Print (m : message).

(** The state around the program: the number of requests made so far and
    everything that happened, oldest first. *)
Record world := { clock : nat; log : list event }.

(** A run that ends with a value, ends with an exception, or is cut off
    while a loop is still going. *)
Inductive run (A : Type) :=
| Returns (a : A)
| Raises (e : Codec.exn)
| Unfinished.
Arguments Returns {A} a.
Arguments Raises {A} e.
Arguments Unfinished {A}.

Definition M (A : Type) : Type := world -> run A * world.

Definition ret {A} (a : A) : M A := fun w => (Returns a, w).

Definition bind {A B} (m : M A) (k : A -> M B) : M B :=
  fun w =>
    match m w with
    | (Returns a, w') => k a w'
    | (Raises e, w') => (Raises e, w')
    | (Unfinished, w') => (Unfinished, w')
    end.

Notation "x <- m ;; k" := (bind m (fun x => k))
  (at level 100, m at next level, right associativity).
Notation "m ;; k" := (bind m (fun _ => k))
  (at level 100, right associativity).

Definition raise {A} (e : Codec.exn) : M A := fun w => (Raises e, w).

Definition cut_off {A} : M A := fun w => (Unfinished, w).

Definition print (m : message) : M unit :=
  fun w => (Returns tt, {| clock := clock w; log := log w ++ [Print m] |}).

(** [try: m  except (urllib.error.URLError, urllib.error.HTTPError) as e:],
    the handler left to the caller: [inl e] when [m] raised one of the two;
    any other exception goes on. *)
Definition try_url_error {A} (m : M A) : M (Codec.url_error + A) :=
  fun w =>
    match m w with
    | (Returns a, w') => (Returns (inr a), w')
    | (Raises (Codec.UrlError e), w') => (Returns (inl e), w')
    | (Raises e, w') => (Raises e, w')
    | (Unfinished, w') => (Unfinished, w')
    end.

Section Crawler.

Context `{Library}.

(** The web: what comes of fetching an address when [n] requests have
    been made in the run. *)
Variable web : nat -> str -> response.

(** [urllib.parse.urljoin(base, url)]. *)
Definition urljoin (base url : str) : str :=
  if is_empty base then url
  else if is_empty url then base
  else resolve base url.

(** *** [LinkExtractor] *)

(** The truth value of [value] and of [href]: [None] and the empty text
    count as false. *)
Definition truthy (value : option str) : bool :=
  match value with
  | Some (_ :: _) => true
  | _ => false
  end.

(** The [for (name, value) in attrs] loop of [handle_starttag]: the value of
    [href] when the loop is left. *)
Fixpoint first_href (attrs : list (str * option str)) : option str :=
  match attrs with
  | [] => None
  | (name, value) :: rest =>
      if bool_decide (lower name = py "href") && truthy value then value
      else first_href rest
  end.

(** [handle_starttag]: [links] is [self.links] before the call, the result
    is [self.links] after it. *)
Definition handle_starttag (base_url : str) (links : list str)
    (tag : str) (attrs : list (str * option str)) : list str :=
  if negb (bool_decide (lower tag = py "a")) then links
  else
    let href := first_href attrs in
    if truthy href then links ++ [urljoin base_url (default [] href)]
    else links.

(** [parser.feed(html)] followed by [list(parser.links)]. *)
Definition parser_links (base_url html : str) : list str :=
  fold_left (fun links '(tag, attrs) => handle_starttag base_url links tag attrs)
    (feed html) [].

(** The links that the pattern adds. *)
Definition fallback_links (base_url html : str) : list str :=
  map (fun m => urljoin base_url (strip m)) (Pattern.findall html).

(** The loop that removes duplicates: [seen] and [unique_links] as in the
    source. *)
Fixpoint unique_loop (seen : gset str) (unique_links links : list str) : list str :=
  match links with
  | [] => unique_links
  | link :: rest =>
      if decide (link ∈ seen) then unique_loop seen unique_links rest
      else unique_loop ({[link]} ∪ seen) (unique_links ++ [link]) rest
  end.

(** Deduplication as the specification words it: the links in first-seen
    order, every later occurrence of a link already kept dropped. *)
Fixpoint first_seen (links : list str) : list str :=
  match links with
  | [] => []
  | link :: rest => link :: filter (fun l => l <> link) (first_seen rest)
  end.

Definition extract_links (base_url html : str) : list str :=
  let links := parser_links base_url html in
  let links := links ++ fallback_links base_url html in
  unique_loop ∅ [] links.

(** *** [fetch] *)

Definition page : Type := str * str * str * nat.

(** [urllib.request.Request(url, headers=headers)]: the request, which is
    the address, or [ValueError]. *)
Definition request (url : str) : M str :=
  fun w =>
    match web (clock w) url with
    | Malformed => (Raises (Codec.Stray Codec.ValueError), w)
    | _ => (Returns url, w)
    end.

(** [urlopen(req, timeout=15)] and the reads inside the [with] block: one
    request, with its answer or the exception that it ends in.  [fetch]
    calls it on a request that [request] has built, so the case of
    [Malformed] does not come up there. *)
Definition urlopen (req : str) : M (str * str * Codec.bytes) :=
  fun w =>
    let w' := {| clock := S (clock w); log := log w ++ [Request req] |} in
    match web (clock w) req with
    | Response final_url content_type content_bytes =>
        (Returns (final_url, content_type, content_bytes), w')
    | Refused e => (Raises (Codec.UrlError e), w')
    | Malformed => (Raises (Codec.Stray Codec.ValueError), w)
    | Broken x => (Raises (Codec.Stray x), w')
    end.

Definition lift {A} (r : Codec.result A) : M A :=
  match r with
  | Codec.Ok a => ret a
  | Codec.Raised e => raise e
  end.

Definition fetch (url : str) : M page :=
  req <- request url ;;
  resp <- urlopen req ;;
  let '(final_url, content_type, content_bytes) := resp in
  text <- lift (Codec.decode_body content_bytes) ;;
  ret (final_url, content_type, text, length content_bytes).

(** *** [stream_text] *)

Fixpoint print_lines (lines : list str) : M unit :=
  match lines with
  | [] => ret tt
  | l :: rest => print (Line l) ;; print_lines rest
  end.

Definition stream_text (url html : str) : M unit :=
  print Rule ;; print (Visiting url) ;; print Rule ;;
  print_lines (Streamer.stream_lines html) ;;
  print EndOfPage.

(** What [stream_text] adds to the log. *)
Definition stream_log (url html : str) : list event :=
  [Print Rule; Print (Visiting url); Print Rule]
  ++ map (fun l => Print (Line l)) (Streamer.stream_lines html)
  ++ [Print EndOfPage].

(** *** [try_llms_txt] *)

Definition try_llms_txt (url : str) : M bool :=
  let base := if endswith url (py "/") then url else url ++ py "/" in
  let llms_url := urljoin base (py "llms.txt") in
  print (InfoChecking llms_url) ;;
  r <- try_url_error
         (p <- fetch llms_url ;;
          let '(final_url, content_type, text, size) := p in
          if negb (contains (py "text") (lower content_type))
             || is_empty (strip text)
          then print InfoNotText ;; ret false
          else
            print HashRule ;; print (FoundAt final_url size) ;; print HashRule ;;
            print (Manifest text) ;;
            print HashRule ;; print InfoStopping ;; print HashRule ;;
            ret true) ;;
  match r with
  | inr found => ret found
  | inl _ => print InfoNoLlms ;; ret false
  end.

(** *** [crawl] *)

(** [parsed.scheme in ("http", "https")]. *)
Definition followed (link : str) : bool :=
  bool_decide (url_scheme link = py "http")
  || bool_decide (url_scheme link = py "https").

(** The [for link in links] loop. *)
Fixpoint enqueue (queue links : list str) : list str :=
  match links with
  | [] => queue
  | link :: rest =>
      if followed link then enqueue (queue ++ [link]) rest
      else enqueue queue rest
  end.

(** The content-type test of the loop: [true] when the page is skipped. *)
Definition skipped (content_type : str) : bool :=
  let ct_lower := lower content_type in
  if contains (py "text/css") ct_lower then true
  else if negb (contains (py "html") ct_lower)
          && negb (contains (py "xml") ct_lower)
          && negb (contains (py "text") ct_lower) then true
  else false.

(** One turn of [while queue]: [url] has been taken off the left end and
    [queue] is the rest; the result is the queue at the end of the turn. *)
Definition visit (url : str) (queue : list str) : M (list str) :=
  r <- try_url_error (fetch url) ;;
  match r with
  | inl e => print (ErrorFetch url e) ;; ret queue
  | inr (final_url, content_type, text, size) =>
      if skipped content_type
      then print (Skip final_url content_type) ;; ret queue
      else
        print (InfoFetched final_url size content_type) ;;
        stream_text final_url text ;;
        let links := extract_links final_url text in
        print (InfoFound (length links) final_url) ;;
        ret (enqueue queue links)
  end.

(** [while queue: ...], cut off after [fuel] turns. *)
Fixpoint crawl_loop (fuel : nat) (queue : list str) : M unit :=
  match queue with
  | [] => ret tt
  | url :: queue' =>
      match fuel with
      | O => cut_off
      | S fuel' => queue'' <- visit url queue' ;; crawl_loop fuel' queue''
      end
  end.

(** [crawl(start_url, check_llms)]: the test of the flag, the first loop,
    and then lines 223 to 260 of the source, which are the probe and the
    loop once more. *)
Definition crawl (fuel : nat) (start_url : str) (check_llms : bool) : M unit :=
  found <- (if check_llms then try_llms_txt start_url else ret false) ;;
  if found then ret tt
  else
    crawl_loop fuel [start_url] ;;
    found' <- try_llms_txt start_url ;;
    if found' then ret tt
    else crawl_loop fuel [start_url].

(** The address that [try_llms_txt] asks for. *)
Definition llms_address (url : str) : str :=
  urljoin (if endswith url (py "/") then url else url ++ py "/") (py "llms.txt").

(** The world after [events] and [requests] more requests. *)
Definition after (w : world) (requests : nat) (events : list event) : world :=
  {| clock := requests + clock w; log := log w ++ events |}.

(** The world in which a run starts. *)
Definition start : world := {| clock := 0; log := [] |}.

(** At its [n]-th request the web answers for [a] with a page that passes
    the content-type test and whose only link, a followed one, is [a]. *)
Definition self_linking (n : nat) (a : str) : Prop :=
  exists final_url content_type content_bytes,
    web n a = Response final_url content_type content_bytes
    /\ skipped content_type = false
    /\ extract_links final_url (Codec.decoded content_bytes) = [a]
    /\ followed a = true.

End Crawler.

(** ** Small webs for the examples *)

Module Example.

(** A page with one anchor. *)
Definition anchor_page : str := py "<a href='x'>x</a>".

(** The text before the first colon. *)
Fixpoint before_colon (s : str) : str :=
  match s with
  | [] => []
  | c :: s' => if c =? 58 then [] else c :: before_colon s'
  end.

(** The blanks and control characters that [urljoin] drops from the left
    end of a reference. *)
Fixpoint lstrip_c0 (s : str) : str :=
  match s with
  | [] => []
  | c :: s' => if c <=? 32 then lstrip_c0 s' else s
  end.

(** A library for the examples: a parser that knows [anchor_page] and
    reports no tag elsewhere; a reference taken without the blanks at its
    left end, for the base when nothing is left of it, for absolute when it
    holds a colon, and appended to the base otherwise (the bases of the
    examples end in a slash); the scheme as the text before the first
    colon. *)
Definition library : Library :=
  {| feed := fun html =>
       if bool_decide (html = anchor_page)
       then [(py "a", [(py "href", Some (py "x"))])]
       else [];
     resolve := fun base url =>
       let url := lstrip_c0 url in
       if is_empty url then base
       else if contains [58] url then url
       else base ++ url;
     url_scheme := before_colon |}.

(** A web on which every request fails with the same error of
    [urllib.error]. *)
Definition dead_web (e : Codec.url_error) : nat -> str -> response :=
  fun _ _ => Refused e.

(** The bytes of an ASCII literal. *)
Definition ascii_bytes (s : string) : Codec.bytes :=
  String.list_byte_of_string s.

(** A web with one page, which links to itself. *)
Definition home : str := py "http://h/".

Definition loop_web : nat -> str -> response :=
  fun _ _ =>
    Response home (py "text/html") (ascii_bytes "<a href='http://h/'>again</a>").

(** A web that answers every request with bytes of an unknown kind. *)
Definition blob_web : nat -> str -> response :=
  fun _ url => Response url (py "application/octet-stream") (ascii_bytes "data").

(** A web that answers every request with a style sheet. *)
Definition css_web : nat -> str -> response :=
  fun _ url => Response url (py "text/css") (ascii_bytes "a{}").

End Example.

(** ** [main]

    [main] from its first line to line 323, where it has the address and
    the flag in hand.  What the user types at the two prompts is given.
    The lines that follow (the scheme test, which goes through [urlparse],
    and the call of [crawl]) are not part of this description. *)

Inductive shell_message :=
| PressCtrlC
| WebBanner
| CrawlerBanner
| Title
| AskUrl
| NoUrlProvided
| AskLlms.

(** What [main] prints up to line 323, and the values of [start_url] and
    [check_llms] there; [None] when it returns at line 320. *)
Definition main_asks (typed_url typed_choice : str)
    : list shell_message * option (str * bool) :=
  let shown := [PressCtrlC; WebBanner; CrawlerBanner; Title; PressCtrlC; AskUrl] in
  let start_url := strip typed_url in
  if is_empty start_url then (shown ++ [NoUrlProvided], None)
  else
    let choice := lower (strip typed_choice) in
    let check_llms := bool_decide (choice = py "y") in
    (shown ++ [AskLlms], Some (start_url, check_llms)).

(** The requests among the events of a log, in order. *)
Fixpoint requests (events : list event) : list str :=
  match events with
  | [] => []
  | Request url :: rest => url :: requests rest
  | Print _ :: rest => requests rest
  end.

(** ** More webs for the examples *)

Module Sample.

(** A web that answers every request with a manifest of one line. *)
Definition manifest_web : nat -> str -> response :=
  fun _ url => Response url (py "text/plain") (Example.ascii_bytes "# site").

(** A web that answers every request with a page and no content type. *)
Definition bare_web : nat -> str -> response :=
  fun _ url => Response url [] (Example.ascii_bytes "<p>hello</p>").

(** An address with a blank in its path, for which [http.client] raises
    [InvalidURL]. *)
Definition spaced : str := py "http://h/a b".

(** A web whose one page names [a b] in a text that is no tag; the address
    that comes of it cannot be asked for, and every other request is
    refused. *)
Definition spaced_web : nat -> str -> response :=
  fun _ url =>
    if bool_decide (url = Example.home)
    then Response Example.home (py "text/html")
           (Example.ascii_bytes "see href='a b'")
    else if bool_decide (url = spaced) then Broken Codec.InvalidURL
    else Refused (Codec.URLError []).

(** A web on which every fetch ends in the same exception of a class that
    the program does not catch. *)
Definition broken_web (x : Codec.stray) : nat -> str -> response :=
  fun _ _ => Broken x.

End Sample.

(** * Facts *)

Import Streamer Ci StyleSpec Codec Pattern.

(** ** The lowered text and the search that ignores letter case *)

(** Case analysis on the comparisons of code points in the goal. *)
Ltac cmp1 :=
  match goal with
  | |- context [N.eqb ?a ?b] => destruct (N.eqb_spec a b)
  | |- context [N.leb ?a ?b] => destruct (N.leb_spec a b)
  | |- context [N.ltb ?a ?b] => destruct (N.ltb_spec a b)
  | H : context [N.eqb ?a ?b] |- _ => destruct (N.eqb_spec a b)
  | H : context [N.leb ?a ?b] |- _ => destruct (N.leb_spec a b)
  | H : context [N.ltb ?a ?b] |- _ => destruct (N.ltb_spec a b)
  end; cbn [andb orb negb app startswith] in *.

Ltac cmp := cbn [andb orb negb app startswith] in *; repeat cmp1;
  try discriminate; try congruence; try lia.

Lemma startswith_nil s : startswith s [] = true.
Proof. by destruct s. Qed.

Lemma ci_prefix_nil s : ci_prefix [] s = true.
Proof. by destruct s. Qed.

(** The head of the lowered text against a plain pattern character. *)
Lemma lower_cp_head p c L :
  plain p = true ->
  startswith (lower_cp c ++ L) [p] = ci_char c p
  /\ (ci_char c p = true -> lower_cp c = [p]).
Proof.
  unfold plain, lower_cp, ci_char. intros Hp.
  cmp; split; intros; try done; try (f_equal; lia); apply startswith_nil.
Qed.

Lemma startswith_cons s p pat :
  startswith s (p :: pat) = startswith s [p] && startswith (drop 1 s) pat.
Proof.
  destruct s as [|c s]; simpl; [done|]. rewrite drop_0.
  by rewrite startswith_nil, andb_true_r.
Qed.

(** A plain pattern at the head of the lowered text is the pattern at the
    head of the text, letter case apart. *)
Lemma startswith_lower pat : forall s,
  forallb plain pat = true ->
  startswith (lower s) pat = ci_prefix pat s.
Proof.
  induction pat as [|p pat IH]; intros s Hp.
  - by rewrite startswith_nil, ci_prefix_nil.
  - simpl in Hp. apply andb_true_iff in Hp as [Hp Hpat].
    destruct s as [|c s]; [done|].
    rewrite startswith_cons. cbn [lower ci_prefix].
    destruct (lower_cp_head p c (lower s) Hp) as [Hhd Hone]. rewrite Hhd.
    destruct (ci_char c p) eqn:E; [|done].
    rewrite (Hone eq_refl). simpl. rewrite drop_0. by apply IH.
Qed.

(** [pat in s.lower()], for a plain pattern, is the search of [s] that
    ignores letter case. *)
Lemma contains_lower pat s :
  forallb plain pat = true ->
  contains pat (lower s) = ci_in pat s.
Proof.
  intros Hp. induction s as [|c s IH].
  - pose proof (startswith_lower pat [] Hp) as E. simpl in *. by rewrite E.
  - cbn [ci_in]. rewrite <- IH, <- (startswith_lower pat (c :: s) Hp).
    cbn [lower]. unfold lower_cp.
    destruct ((65 <=? c) && (c <=? 90)); [done|].
    destruct (c =? 304); [|by destruct (c =? 8490)].
    cbn [app contains]. destruct pat as [|p pat]; [done|].
    simpl in Hp. apply andb_true_iff in Hp as [Hp _].
    replace (startswith (775 :: lower s) (p :: pat)) with false; [done|].
    unfold plain in Hp. cmp.
Qed.

(** ** Whitespace *)

Lemma lstrip_nil_iff s : is_empty (lstrip s) = forallb isspace s.
Proof.
  induction s as [|c s IH]; [done|]. simpl. by destruct (isspace c).
Qed.

Lemma forallb_rev {A} (f : A -> bool) l : forallb f (rev l) = forallb f l.
Proof.
  induction l as [|x l IH]; [done|]. simpl.
  rewrite forallb_app, IH. simpl. rewrite andb_true_r. apply andb_comm.
Qed.

Lemma is_empty_rev (s : list N) : is_empty (rev s) = is_empty s.
Proof. destruct s as [|c s]; [done|]. simpl. by destruct (rev s). Qed.

Lemma rstrip_nil_iff s : is_empty (rstrip s) = forallb isspace s.
Proof. unfold rstrip. by rewrite is_empty_rev, lstrip_nil_iff, forallb_rev. Qed.

Lemma forallb_lstrip s :
  forallb isspace (lstrip s) = forallb isspace s.
Proof.
  induction s as [|c s IH]; [done|]. simpl.
  destruct (isspace c) eqn:Hc; [done|]. simpl. by rewrite Hc.
Qed.

(** [not text.strip()]: the text is empty or all whitespace. *)
Lemma strip_nil_iff s : is_empty (strip s) = forallb isspace s.
Proof. unfold strip. by rewrite rstrip_nil_iff, forallb_lstrip. Qed.

Lemma strip_blank s : forallb isspace s = true -> strip s = [].
Proof.
  intros Hs. rewrite <- strip_nil_iff in Hs. by destruct (strip s).
Qed.

Lemma elem_of_rev (c : N) s : c ∈ rev s <-> c ∈ s.
Proof. rewrite !list_elem_of_In. symmetry. apply in_rev. Qed.

Lemma elem_of_lstrip c s : c ∈ lstrip s -> c ∈ s.
Proof.
  induction s as [|d s IH]; simpl; [done|].
  destruct (isspace d); [|done]. intros Hc. right. by apply IH.
Qed.

Lemma elem_of_rstrip c s : c ∈ rstrip s -> c ∈ s.
Proof.
  unfold rstrip. rewrite elem_of_rev. intros Hc%elem_of_lstrip.
  by rewrite elem_of_rev in Hc.
Qed.

(** ** The streamer and the two-state machine *)

(** Without U+0130 the lowered text has one character per character. *)
Lemma lower_cons c s :
  c <> 304 -> exists x, lower (c :: s) = x :: lower s.
Proof.
  intros Hc. cbn [lower]. unfold lower_cp.
  destruct ((65 <=? c) && (c <=? 90)); [by eexists|].
  destruct (N.eqb_spec c 304); [done|].
  destruct (c =? 8490); by eexists.
Qed.

(** The position found in the lowered text is the position of the last
    occurrence in the line. *)
Lemma rfind_after_last pat line :
  forallb plain pat = true -> 304 ∉ line ->
  match after_last pat line with
  | Some r =>
      (0 <= rfind (lower line) pat)%Z
      /\ drop (Z.to_nat (rfind (lower line) pat) + length pat) line = r
  | None => rfind (lower line) pat = (-1)%Z
  end.
Proof.
  intros Hp. induction line as [|c line IH]; intros Hno.
  - pose proof (startswith_lower pat [] Hp) as E. simpl in *. rewrite E.
    destruct (ci_prefix pat []) eqn:Epre; [|done].
    split; [done|]. by rewrite drop_nil.
  - apply not_elem_of_cons in Hno as [Hc Hno]. specialize (IH Hno).
    pose proof (startswith_lower pat (c :: line) Hp) as E.
    destruct (lower_cons c line) as [x Hx]; [done|].
    rewrite Hx in *. cbn [rfind after_last].
    destruct (after_last pat line) as [r|].
    + destruct IH as [Hge <-].
      destruct (Z.leb_spec 0 (rfind (lower line) pat)); [|lia].
      split; [lia|].
      replace (Z.to_nat (rfind (lower line) pat + 1) + length pat)%nat
        with (S (Z.to_nat (rfind (lower line) pat) + length pat)) by lia.
      done.
    + rewrite IH. cbn [Z.leb Z.compare]. rewrite E.
      destruct (ci_prefix pat (c :: line)); [|done].
      split; [done|]. done.
Qed.

(** There is an occurrence exactly when there is a last one. *)
Lemma ci_in_after_last pat s :
  ci_in pat s = bool_decide (is_Some (after_last pat s)).
Proof.
  induction s as [|c s IH].
  - simpl. destruct (ci_prefix pat []); by rewrite ?orb_false_r.
  - cbn [ci_in after_last]. rewrite IH.
    destruct (after_last pat s) as [r|].
    + rewrite orb_true_r. symmetry. by apply bool_decide_eq_true.
    + rewrite orb_false_r. destruct (ci_prefix pat (c :: s)); symmetry.
      * by apply bool_decide_eq_true.
      * apply bool_decide_eq_false. by intros [? ?].
Qed.

Lemma plain_style_open : forallb plain style_open = true.
Proof. reflexivity. Qed.

Lemma plain_style_close : forallb plain style_close = true.
Proof. reflexivity. Qed.

(** What the program prints after a close marker is the remainder of the
    machine, on a line without U+0130. *)
Lemma after_close_remainder line :
  304 ∉ line -> ci_in style_close line = true ->
  print_if_nonempty (after_close line (lower line)) = remainder line.
Proof.
  intros Hno Hin. rewrite ci_in_after_last in Hin.
  apply bool_decide_eq_true in Hin as [r Hr].
  pose proof (rfind_after_last style_close line plain_style_close Hno) as Hpos.
  unfold remainder, after_close, print_if_nonempty, slice_from.
  rewrite Hr in *. destruct Hpos as [Hge <-].
  destruct (Z.ltb_spec (rfind (lower line) style_close
                        + Z.of_nat (length style_close)) 0); [lia|].
  by rewrite Z2Nat.inj_add, Nat2Z.id by lia.
Qed.

(** One turn of the loop is one transition of the machine. *)
Lemma stream_line_transition in_style raw :
  304 ∉ rstrip raw -> is_empty (rstrip raw) = false ->
  stream_line in_style raw =
    (let '(m, out) := transition (mode_of in_style) (rstrip raw) in
     (flag_of m, out)).
Proof.
  intros Hno Hne. unfold stream_line, transition. rewrite Hne.
  rewrite !contains_lower by reflexivity.
  destruct (ci_in style_close (rstrip raw)) eqn:Hclose.
  - rewrite (after_close_remainder _ Hno Hclose).
    destruct (ci_in style_open (rstrip raw)), in_style; reflexivity.
  - destruct (ci_in style_open (rstrip raw)), in_style; reflexivity.
Qed.

(** The characters of a line are characters of the text. *)
Lemma elem_of_splitlines_from s : forall cur l c,
  l ∈ splitlines_from cur s -> c ∈ l -> c ∈ cur \/ c ∈ s.
Proof.
  induction s as [s IH] using (induction_ltof1 _ (@length N)).
  unfold ltof in IH. intros cur l c Hl Hc. destruct s as [|b rest].
  - simpl in Hl. destruct (is_empty cur); [by apply elem_of_nil in Hl|].
    apply list_elem_of_singleton in Hl as ->. left. by apply elem_of_rev.
  - cbn [splitlines_from] in Hl. destruct (is_linebreak b).
    + assert (Hhead : l = rev cur -> c ∈ cur \/ c ∈ b :: rest).
      { intros ->. left. by apply elem_of_rev. }
      destruct rest as [|d rest'].
      * apply list_elem_of_singleton in Hl. auto.
      * destruct ((b =? 13) && (d =? 10));
          apply elem_of_cons in Hl as [Hl|Hl]; auto.
        -- destruct (IH rest' ltac:(simpl; lia) [] l c Hl Hc) as [C|C];
             [by apply elem_of_nil in C|]. right. by do 2 right.
        -- destruct (IH (d :: rest') ltac:(simpl; lia) [] l c Hl Hc) as [C|C];
             [by apply elem_of_nil in C|]. right. by right.
    + destruct (IH rest ltac:(simpl; lia) (b :: cur) l c Hl Hc) as [C|C].
      * apply elem_of_cons in C as [->|C]; [right; left|left]; done.
      * right. by right.
Qed.

Lemma stream_loop_machine lines : forall in_style,
  Forall (fun l => 304 ∉ l) lines ->
  stream_loop in_style lines = machine (mode_of in_style) lines.
Proof.
  induction lines as [|raw lines IH]; intros in_style Hall; [done|].
  apply Forall_cons in Hall as [Hraw Hall]. cbn [stream_loop machine].
  destruct (is_empty (rstrip raw)) eqn:Hne.
  - unfold stream_line. rewrite Hne. simpl. by apply IH.
  - rewrite stream_line_transition; [|by intros C%elem_of_rstrip|done].
    destruct (transition (mode_of in_style) (rstrip raw)) as [m out].
    rewrite IH by done. by destruct m.
Qed.

(** For a text without U+0130 the lines printed are those of the machine. *)
Lemma stream_lines_machine html :
  304 ∉ html -> stream_lines html = emitted_lines html.
Proof.
  intros Hno. apply stream_loop_machine, Forall_forall.
  intros l Hl Hc. destruct (elem_of_splitlines_from _ _ _ _ Hl Hc) as [C|C].
  - by apply elem_of_nil in C.
  - done.
Qed.

(** A line with the markers in capitals. *)
Lemma stream_lines_machine_witness :
  stream_lines (py "a<STYLE>b</Style>c") = emitted_lines (py "a<STYLE>b</Style>c").
Proof.
  apply stream_lines_machine. vm_compute.
  intros Hin. repeat (apply elem_of_cons in Hin as [Hin|Hin]; [discriminate Hin|]).
  by apply elem_of_nil in Hin.
Defined.

(** The two examples of the specification. *)
Example stream_lines_style_block :
  stream_lines (py "foo" ++ [10] ++ py "<style>" ++ [10]
                ++ py "body{color:red}" ++ [10] ++ py "</style>" ++ [10]
                ++ py "bar")
  = [py "foo"; py "bar"].
Proof. vm_compute. reflexivity. Qed.

Example stream_lines_one_line :
  stream_lines (py "a<style>b</style>c") = [py "c"].
Proof. vm_compute. reflexivity. Qed.

(** C2 (the code departs from it).  On the one-line text made of U+0130
    and [<style></style>xy] the program prints [y], where the two-state
    machine emits [xy], the trimmed remainder after the close marker:
    [lower] turns U+0130 into two characters, the position of the marker is
    read off the lowered copy and applied to the line, and the remainder
    loses its first character. *)
Theorem stream_lines_dotted_capital :
  stream_lines (304 :: py "<style></style>xy") = [py "y"]
  /\ emitted_lines (304 :: py "<style></style>xy") = [py "xy"].
Proof. split; vm_compute; reflexivity. Qed.

(** ** The fallback pattern *)

(** The search inside a match is the search from the end of the match. *)
Lemma findall_from_drop n : forall s,
  findall_from n s = findall (drop n s).
Proof.
  induction n as [|n IH]; intros s; [by rewrite drop_0|].
  destruct s as [|c s]; [done|]. simpl. apply IH.
Qed.

Lemma findall_cons c s :
  findall (c :: s) =
    match match_here (c :: s) with
    | Some (v, n) => v :: findall (drop n s)
    | None => findall s
    end.
Proof.
  unfold findall at 1. cbn [findall_from].
  destruct (match_here (c :: s)) as [[v n]|]; [|done].
  by rewrite findall_from_drop.
Qed.

Lemma skip_spaces_app ws s :
  forallb isspace ws = true ->
  skip_spaces (ws ++ s) = skip_spaces s.
Proof.
  induction ws as [|c ws IH]; simpl; [done|].
  intros [-> Hws]%andb_true_iff. by apply IH.
Qed.

Lemma span_value_app v q rest :
  forallb (fun c => negb (is_quote c)) v = true ->
  is_quote q = true ->
  span_value (v ++ q :: rest) = (v, q :: rest).
Proof.
  intros Hv Hq. induction v as [|c v IH]; simpl.
  - by rewrite Hq.
  - simpl in Hv. apply andb_true_iff in Hv as [Hc Hv].
    apply negb_true_iff in Hc. rewrite Hc, (IH Hv). done.
Qed.

Lemma is_quote_not_space q : is_quote q = true -> isspace q = false.
Proof.
  unfold is_quote. intros [->%N.eqb_eq | ->%N.eqb_eq]%orb_true_iff; reflexivity.
Qed.

(** The pattern matches at the head of a text that starts with an
    occurrence, and captures its value. *)
Lemma match_here_occurrence occ v post :
  occurrence occ v ->
  match_here (occ ++ post) = Some (v, (length occ - 1)%nat).
Proof.
  intros [w ws1 ws2 q q' -> Hw H1 H2 Hq Hq' Hv Hclean].
  unfold href_word in Hw. change (py "href") with [104; 114; 101; 102] in Hw.
  repeat match goal with
  | H : Forall2 _ _ (_ :: _) |- _ =>
      apply Forall2_cons_inv_r in H as (? & ? & ? & H & ->)
  | H : Forall2 _ _ [] |- _ => apply Forall2_nil_inv_r in H as ->
  end.
  cbn [app match_here].
  repeat match goal with
  | H : letter _ _ = true |- _ => rewrite H; clear H
  end.
  cbn [andb]. rewrite <- !app_assoc. rewrite (skip_spaces_app ws1) by exact H1.
  cbn [app skip_spaces]. change (isspace 61) with false. cbn iota.
  change (61 =? 61) with true. cbn iota.
  rewrite <- !app_assoc. rewrite (skip_spaces_app ws2) by exact H2.
  cbn [app skip_spaces]. rewrite (is_quote_not_space q Hq), Hq.
  rewrite <- !app_assoc. cbn [app]. rewrite (span_value_app v q') by done.
  destruct v as [|c v]; [done|]. rewrite Hq'.
  do 3 f_equal. cbn [length]. rewrite !length_app. cbn [length].
  rewrite ?length_app. cbn [length]. rewrite ?length_app. cbn [length]. lia.
Qed.

Lemma unmatched_before_tail n c s :
  unmatched_before (S n) (c :: s) -> unmatched_before n s.
Proof. intros Hun i Hi. apply (Hun (S i)). lia. Qed.

(** The search passes over a stretch in which no match starts. *)
Lemma findall_unmatched pre s :
  unmatched_before (length pre) (pre ++ s) ->
  findall (pre ++ s) = findall s.
Proof.
  induction pre as [|c pre IH]; intros Hun; [done|].
  cbn [app]. rewrite findall_cons.
  rewrite (Hun 0%nat ltac:(simpl; lia) : match_here (c :: pre ++ s) = None).
  apply IH. by apply unmatched_before_tail in Hun.
Qed.

Lemma occurrence_length occ v : occurrence occ v -> (5 <= length occ)%nat.
Proof.
  intros [w ws1 ws2 q q' -> Hw _ _ _ _ _ _].
  apply Forall2_length in Hw. rewrite !length_app, Hw. simpl. lia.
Qed.

(** An occurrence that the search reaches is captured, and the search goes
    on behind it. *)
Lemma findall_occurrence pre occ post v :
  occurrence occ v ->
  unmatched_before (length pre) (pre ++ occ ++ post) ->
  findall (pre ++ occ ++ post) = v :: findall post.
Proof.
  intros Hocc Hun. rewrite findall_unmatched by done.
  pose proof (match_here_occurrence occ v post Hocc) as Hm.
  pose proof (occurrence_length occ v Hocc) as Hlen.
  destruct occ as [|c occ]; [simpl in Hlen; lia|].
  cbn [app] in *. rewrite findall_cons, Hm. f_equal.
  cbn [length]. replace (S (length occ) - 1)%nat with (length occ) by lia.
  by rewrite drop_app_length.
Qed.

Lemma skip_spaces_split s :
  exists ws, s = ws ++ skip_spaces s /\ forallb isspace ws = true.
Proof.
  induction s as [|c s (ws & Hs & Hws)]; [by exists []|]. simpl.
  destruct (isspace c) eqn:Hc; [|by exists []].
  exists (c :: ws). simpl. rewrite Hc, Hws. split; [congruence|done].
Qed.

Lemma span_value_split s v rest :
  span_value s = (v, rest) ->
  s = v ++ rest /\ forallb (fun c => negb (is_quote c)) v = true.
Proof.
  revert v rest. induction s as [|c s IH]; intros v rest; simpl.
  - by intros [= <- <-].
  - destruct (is_quote c) eqn:Hc; [by intros [= <- <-]|].
    destruct (span_value s) as [v' rest'] eqn:Hs. intros [= <- <-].
    destruct (IH v' rest' eq_refl) as [-> Hv]. simpl. by rewrite Hc, Hv.
Qed.

(** What the pattern matches at the head of a text is an occurrence. *)
Lemma match_here_sound s v n :
  match_here s = Some (v, n) ->
  exists occ post,
    s = occ ++ post /\ occurrence occ v /\ length occ = S n.
Proof.
  unfold match_here.
  destruct s as [|h [|r [|e [|f s1]]]]; try done.
  destruct (letter 104 h) eqn:Hh; [|done].
  destruct (letter 114 r) eqn:Hr; [|done].
  destruct (letter 101 e) eqn:He; [|done].
  destruct (letter 102 f) eqn:Hf; [|done]. cbn [andb].
  destruct (skip_spaces_split s1) as (ws1 & Hs1 & Hws1).
  destruct (skip_spaces s1) as [|eq s2]; [done|].
  destruct (N.eqb_spec eq 61) as [->|]; [|done].
  destruct (skip_spaces_split s2) as (ws2 & Hs2 & Hws2).
  destruct (skip_spaces s2) as [|q s3]; [done|].
  destruct (is_quote q) eqn:Hq; [|done].
  destruct (span_value s3) as [v' rest'] eqn:Hspan.
  apply span_value_split in Hspan as [Hs3 Hclean].
  destruct v' as [|c v']; [done|]. destruct rest' as [|q' rest]; [done|].
  destruct (is_quote q') eqn:Hq'; [|done]. intros [= <- <-].
  exists ([h; r; e; f] ++ ws1 ++ [61] ++ ws2 ++ [q] ++ (c :: v') ++ [q']), rest.
  assert (Hshape : h :: r :: e :: f :: s1 =
    ([h; r; e; f] ++ ws1 ++ [61] ++ ws2 ++ [q] ++ (c :: v') ++ [q']) ++ rest).
  { rewrite Hs1, Hs2, Hs3. rewrite <- !app_assoc. cbn [app].
    done. }
  split; [exact Hshape|]. split.
  - econstructor; try done. repeat constructor; done.
  - apply (f_equal length) in Hshape. rewrite length_app in Hshape.
    cbn [app length] in *. lia.
Qed.

(** Every captured value is the value of an occurrence in the text. *)
Lemma findall_sound s : forall v,
  v ∈ findall s ->
  exists pre occ post, s = pre ++ occ ++ post /\ occurrence occ v.
Proof.
  induction s as [s IH] using (induction_ltof1 _ (@length N)).
  unfold ltof in IH. intros v Hv. destruct s as [|c s]; [by apply elem_of_nil in Hv|].
  rewrite findall_cons in Hv.
  destruct (match_here (c :: s)) as [[v0 n]|] eqn:Hm.
  - apply elem_of_cons in Hv as [->|Hv].
    + destruct (match_here_sound _ _ _ Hm) as (occ & post & Hs & Hocc & _).
      by exists [], occ, post.
    + destruct (IH (drop n s)) with (v := v) as (pre & occ & post & Hs & Hocc);
        [rewrite length_drop; simpl; lia|done|].
      exists (c :: take n s ++ pre), occ, post. split; [|done].
      cbn [app]. rewrite <- app_assoc, <- Hs. by rewrite take_drop.
  - destruct (IH s) with (v := v) as (pre & occ & post & Hs & Hocc);
      [simpl; lia|done|].
    exists (c :: pre), occ, post. by rewrite Hs.
Qed.

Lemma occurrence_value occ v :
  occurrence occ v -> v <> [] /\ forallb (fun c => negb (is_quote c)) v = true.
Proof. by intros [w ws1 ws2 q q' _ _ _ _ _ _ Hv Hclean]. Qed.

(** An empty value between two quotes is no match. *)
Lemma match_here_empty_value w ws1 ws2 q q' post :
  href_word w -> forallb isspace ws1 = true -> forallb isspace ws2 = true ->
  is_quote q = true -> is_quote q' = true ->
  match_here (w ++ ws1 ++ [61] ++ ws2 ++ [q; q'] ++ post) = None.
Proof.
  intros Hw H1 H2 Hq Hq'.
  unfold href_word in Hw. change (py "href") with [104; 114; 101; 102] in Hw.
  repeat match goal with
  | H : Forall2 _ _ (_ :: _) |- _ =>
      apply Forall2_cons_inv_r in H as (? & ? & ? & H & ->)
  | H : Forall2 _ _ [] |- _ => apply Forall2_nil_inv_r in H as ->
  end.
  cbn [app match_here].
  repeat match goal with
  | H : letter _ _ = true |- _ => rewrite H; clear H
  end.
  cbn [andb]. rewrite (skip_spaces_app ws1) by exact H1.
  cbn [app skip_spaces]. change (isspace 61) with false. cbn iota.
  change (61 =? 61) with true. cbn iota.
  rewrite (skip_spaces_app ws2) by exact H2.
  cbn [app skip_spaces]. rewrite (is_quote_not_space q Hq), Hq.
  cbn [span_value]. by rewrite Hq'.
Qed.

(** An occurrence that no earlier match reaches into is captured. *)
Lemma findall_clear pre : forall occ post v,
  occurrence occ v ->
  clear_before (length pre) (pre ++ occ ++ post) ->
  v ∈ findall (pre ++ occ ++ post).
Proof.
  induction pre as [pre IH] using (induction_ltof1 _ (@length N)).
  unfold ltof in IH. intros occ post v Hocc Hclear.
  destruct pre as [|c pre].
  - rewrite (findall_occurrence [] occ post v Hocc); [by left|].
    intros i Hi. simpl in Hi. lia.
  - cbn [app]. rewrite findall_cons.
    destruct (match_here (c :: pre ++ occ ++ post)) as [[v' k]|] eqn:Hm.
    + right. pose proof (Hclear 0%nat v' k ltac:(simpl; lia) Hm) as Hk.
      cbn [length] in Hk.
      rewrite drop_app_le by lia.
      apply IH; [rewrite length_drop; simpl; lia|done|].
      intros i v'' k' Hi Hm'. rewrite length_drop in *.
      rewrite <- drop_app_le in Hm' by lia.
      rewrite drop_drop in Hm'.
      pose proof (Hclear (S (k + i)) v'' k' ltac:(simpl; lia) Hm') as Hk'.
      cbn [length] in Hk'. lia.
    + apply IH; [simpl; lia|done|].
      intros i v'' k' Hi Hm'.
      pose proof (Hclear (S i) v'' k' ltac:(simpl; lia) Hm') as Hk'.
      cbn [length] in Hk'. lia.
Qed.

(** C10, as amended.  The pattern takes any pair of quote characters around
    the value.  A text that starts with an occurrence (the word [href],
    whitespace, an equals sign, whitespace, a quote, a value of one or more
    characters that are no quotes, a quote) has the value captured first;
    an occurrence further on is captured when no match that starts before
    it reaches into it.  Every captured value comes from such an occurrence,
    so it is not empty and holds no quote; and where the two quotes stand
    side by side the pattern does not match. *)
Theorem pattern_captures :
  (forall pre occ post v,
     occurrence occ v ->
     clear_before (length pre) (pre ++ occ ++ post) ->
     v ∈ findall (pre ++ occ ++ post))
  /\ (forall occ post v,
        occurrence occ v -> findall (occ ++ post) = v :: findall post)
  /\ (forall s v,
        v ∈ findall s ->
        (exists pre occ post, s = pre ++ occ ++ post /\ occurrence occ v)
        /\ v <> []
        /\ forallb (fun c => negb (is_quote c)) v = true)
  /\ (forall word space1 space2 q q' post,
        href_word word ->
        forallb isspace space1 = true -> forallb isspace space2 = true ->
        is_quote q = true -> is_quote q' = true ->
        match_here (word ++ space1 ++ [61] ++ space2 ++ [q; q'] ++ post) = None).
Proof.
  split; [intros; by apply findall_clear|].
  split.
  { intros occ post v Hocc. apply (findall_occurrence [] occ post v Hocc).
    intros i Hi. simpl in Hi. lia. }
  split; [|intros; by apply match_here_empty_value].
  intros s v Hv. destruct (findall_sound s v Hv) as (pre & occ & post & Hs & Hocc).
  split; [by exists pre, occ, post|]. by apply (occurrence_value occ).
Qed.

(** The claim as it was stated fails: in the text that reads [href=], a
    double quote, [a href=], a single quote, [b], a double quote, the
    occurrence with the value [b] lies inside the first match, whose value
    is [a href=], and [b] is not captured. *)
Lemma pattern_captures_counterexample :
  ~ (forall pre occ post v,
       occurrence occ v -> v ∈ findall (pre ++ occ ++ post)).
Proof.
  intros Hall.
  specialize (Hall (py "href=" ++ [34] ++ py "a ")
                   (py "href=" ++ [39] ++ py "b" ++ [34]) [] (py "b")).
  assert (Hocc : occurrence (py "href=" ++ [39] ++ py "b" ++ [34]) (py "b")).
  { apply (Occurrence _ _ (py "href") [] [] 39 34); try reflexivity.
    - repeat constructor.
    - discriminate. }
  apply Hall in Hocc. vm_compute in Hocc.
  apply list_elem_of_singleton in Hocc. discriminate Hocc.
Qed.

(** A value between a double quote and a single quote, behind the start of
    a tag. *)
Lemma pattern_captures_witness :
  findall (py "<a href=" ++ [34] ++ py "x" ++ [39] ++ py ">") = [py "x"]
  /\ py "x" ∈ findall (py "<a href=" ++ [34] ++ py "x" ++ [39] ++ py ">").
Proof.
  split; [vm_compute; reflexivity|].
  apply (proj1 pattern_captures (py "<a ")
           (py "href=" ++ [34] ++ py "x" ++ [39]) (py ">") (py "x")).
  - apply (Occurrence _ _ (py "href") [] [] 34 39); try reflexivity.
    + repeat constructor.
    + discriminate.
  - intros i v k Hi Hm. simpl in Hi.
    destruct i as [|[|[|i]]]; [vm_compute in Hm; discriminate Hm..|lia].
Defined.

(** ** Deduplication *)

Section Deduplication.

Implicit Types (links acc : list (list N)) (link : list N).

(** Dropping links before or after the deduplication is the same. *)
Lemma filter_first_seen (P : list N -> Prop) `{!forall x, Decision (P x)} links :
  filter P (first_seen links) = first_seen (filter P links).
Proof.
  induction links as [|link rest IH]; [done|].
  cbn [first_seen]. rewrite !filter_cons. destruct (decide (P link)) as [Hp|Hp].
  - cbn [first_seen]. f_equal. rewrite <- IH.
    rewrite !list_filter_filter. apply list_filter_iff. tauto.
  - rewrite <- IH. rewrite list_filter_filter. apply list_filter_iff.
    intros x. split; [tauto|]. intros Hx. split; [done|]. by intros ->.
Qed.

Lemma elem_of_first_seen links link : link ∈ first_seen links <-> link ∈ links.
Proof.
  induction links as [|l rest IH]; [done|]. cbn [first_seen].
  rewrite !elem_of_cons, list_elem_of_filter, IH.
  destruct (decide (link = l)); intuition congruence.
Qed.

Lemma NoDup_first_seen links : NoDup (first_seen links).
Proof.
  induction links as [|l rest IH]; [constructor|]. cbn [first_seen].
  constructor; [|by apply NoDup_filter].
  rewrite list_elem_of_filter. tauto.
Qed.

(** The loop of the source against the deduplication of the
    specification: what the loop has kept so far stays in front. *)
Lemma unique_loop_first_seen links : forall (seen : gset (list N)) acc,
  (forall link, link ∈ seen <-> link ∈ acc) ->
  unique_loop seen acc links
  = acc ++ first_seen (filter (fun link => link ∉ acc) links).
Proof.
  induction links as [|link rest IH]; intros seen acc Hseen.
  - cbn. by rewrite app_nil_r.
  - cbn [unique_loop]. rewrite filter_cons.
    destruct (decide (link ∈ seen)) as [Hin|Hin].
    + rewrite decide_False by (rewrite <- Hseen; tauto).
      by apply IH.
    + rewrite decide_True by (by rewrite <- Hseen).
      rewrite (IH ({[link]} ∪ seen) (acc ++ [link])).
      * rewrite <- app_assoc. cbn [app first_seen]. do 2 f_equal.
        rewrite filter_first_seen. f_equal. rewrite list_filter_filter.
        apply list_filter_iff. intros x.
        rewrite elem_of_app, list_elem_of_singleton. tauto.
      * intros x. rewrite elem_of_union, elem_of_singleton, elem_of_app,
          list_elem_of_singleton, Hseen. tauto.
Qed.

Lemma filter_not_elem_of_nil links :
  filter (fun link => link ∉ []) links = links.
Proof.
  induction links as [|l rest IH]; [done|].
  rewrite filter_cons_True by apply not_elem_of_nil. by rewrite IH.
Qed.

Lemma once_in_NoDup links link :
  NoDup links -> link ∈ links ->
  length (filter (fun l => l = link) links) = 1%nat.
Proof.
  induction 1 as [|l rest Hnot Hnd IH]; [by intros ?%elem_of_nil|].
  rewrite filter_cons. intros [->|Hin]%elem_of_cons.
  - rewrite decide_True by done. cbn [length]. f_equal.
    apply length_zero_iff_nil, elem_of_nil_inv.
    by intros x [-> Hx]%list_elem_of_filter.
  - rewrite decide_False by (by intros ->). by apply IH.
Qed.

End Deduplication.

Section Extractor.

Context `{Library}.

(** C3.  The output of [extract_links] is the list of the parser pass
    followed by the list of the pattern pass, deduplicated in first-seen
    order.  No link stands in it twice, it holds the links of the two passes
    and no other, and a link found by both passes stands in it once. *)
Theorem extract_links_first_seen base_url html :
  let passes := parser_links base_url html ++ fallback_links base_url html in
  extract_links base_url html = first_seen passes
  /\ NoDup (extract_links base_url html)
  /\ (forall link, link ∈ extract_links base_url html <-> link ∈ passes)
  /\ (forall link,
        link ∈ parser_links base_url html ->
        link ∈ fallback_links base_url html ->
        length (filter (fun l => l = link) (extract_links base_url html)) = 1%nat).
Proof.
  intros passes.
  assert (Heq : extract_links base_url html = first_seen passes).
  { unfold extract_links. rewrite (unique_loop_first_seen _ ∅ []) by set_solver.
    cbn [app]. f_equal. apply filter_not_elem_of_nil. }
  rewrite Heq. split; [done|]. split; [apply NoDup_first_seen|].
  split; [apply elem_of_first_seen|].
  intros link Hp _. apply once_in_NoDup; [apply NoDup_first_seen|].
  apply elem_of_first_seen, elem_of_app. by left.
Qed.

End Extractor.

(** The page with one anchor, which both passes find. *)
Lemma extract_links_first_seen_witness :
  @extract_links Example.library Example.home Example.anchor_page
    = [py "http://h/x"]
  /\ length (filter (fun l => l = py "http://h/x")
       (@extract_links Example.library Example.home Example.anchor_page)) = 1%nat.
Proof.
  split; [vm_compute; reflexivity|].
  apply (proj2 (proj2 (proj2
    (@extract_links_first_seen Example.library Example.home Example.anchor_page)))).
  - vm_compute. by left.
  - vm_compute. by left.
Defined.

(** ** Decoding *)

(** With the handler [replace] the decoder loop always ends with a text. *)
Lemma utf8_loop_replace bs : forall skip,
  exists text, utf8_loop (Some Replace) skip bs = Ok text.
Proof.
  induction bs as [|b0 rest IH]; intros skip; [by exists []|].
  cbn [utf8_loop]. destruct skip as [|k]; [|apply IH].
  destruct (utf8_step b0 rest) as [c width|width];
    destruct (IH (width - 1)%nat) as [text ->]; by eexists.
Qed.

(** Where the strict decoder accepts the input, [replace] gives the same
    text; where it refuses, [replace] gives a text with U+FFFD in it. *)
Lemma utf8_loop_strict bs : forall skip,
  match utf8_loop (Some Strict) skip bs with
  | Ok text => utf8_loop (Some Replace) skip bs = Ok text
  | Raised e =>
      e = UnicodeDecodeError
      /\ exists text, utf8_loop (Some Replace) skip bs = Ok text /\ 65533 ∈ text
  end.
Proof.
  induction bs as [|b0 rest IH]; intros skip; [done|].
  cbn [utf8_loop]. destruct skip as [|k]; [|apply IH].
  destruct (utf8_step b0 rest) as [c width|width].
  - specialize (IH (width - 1)%nat).
    destruct (utf8_loop (Some Strict) (width - 1) rest) as [text|e].
    + by rewrite IH.
    + destruct IH as (-> & text & -> & Hin). split; [done|].
      exists (c :: text). split; [done|]. by right.
  - split; [done|]. destruct (utf8_loop_replace rest (width - 1)) as [text ->].
    exists (65533 :: text). split; [done|]. by left.
Qed.

Lemma decode_utf8_replace bs :
  decode bs "utf-8" "replace" = utf8_loop (Some Replace) 0 (map Byte.to_N bs).
Proof. reflexivity. Qed.

Lemma decode_utf8_strict bs :
  decode bs "utf-8" "strict" = utf8_loop (Some Strict) 0 (map Byte.to_N bs).
Proof. reflexivity. Qed.

Lemma decode_latin1 bs errors :
  decode bs "latin-1" errors = Ok (map Byte.to_N bs).
Proof. reflexivity. Qed.

Lemma decode_body_utf8 bs :
  decode_body bs = decode bs "utf-8" "replace".
Proof.
  unfold decode_body. rewrite decode_utf8_replace.
  by destruct (utf8_loop_replace (map Byte.to_N bs) 0) as [text ->].
Qed.

Lemma decode_body_decoded bs : decode_body bs = Ok (decoded bs).
Proof.
  unfold decoded. rewrite decode_body_utf8, decode_utf8_replace.
  by destruct (utf8_loop_replace (map Byte.to_N bs) 0) as [text ->].
Qed.

(** The handler is for [LookupError] alone: a [UnicodeDecodeError] would
    go through it.  With the handler [replace] there is none to go through. *)
Remark except_lookup_other fallback :
  except_lookup (Raised UnicodeDecodeError) fallback = Raised UnicodeDecodeError.
Proof. reflexivity. Qed.

(** C9.  The decoding step of [fetch] gives a text for every sequence of
    bytes and never raises: it is the UTF-8 decoding with the handler
    [replace].  Where the strict decoder accepts the bytes the text is the
    same; where it refuses them the text holds U+FFFD instead.  The handler
    of [LookupError] decodes with latin-1, one character for each byte. *)
Theorem decode_body_total :
  (forall bs, exists text, decode_body bs = Ok text
     /\ decode bs "utf-8" "replace" = Ok text)
  /\ (forall bs text, decode bs "utf-8" "strict" = Ok text ->
        decode_body bs = Ok text)
  /\ (forall bs e, decode bs "utf-8" "strict" = Raised e ->
        exists text, decode_body bs = Ok text /\ 65533 ∈ text)
  /\ (forall bs, except_lookup (Raised LookupError) (decode bs "latin-1" "replace")
        = Ok (map Byte.to_N bs)
      /\ length (map Byte.to_N bs) = length bs).
Proof.
  repeat split.
  - intros bs. exists (decoded bs). rewrite <- decode_body_utf8.
    split; apply decode_body_decoded.
  - intros bs text Hs. rewrite decode_body_utf8, decode_utf8_replace.
    rewrite decode_utf8_strict in Hs.
    pose proof (utf8_loop_strict (map Byte.to_N bs) 0) as Hrel.
    by rewrite Hs in Hrel.
  - intros bs e Hs. rewrite decode_body_utf8, decode_utf8_replace.
    rewrite decode_utf8_strict in Hs.
    pose proof (utf8_loop_strict (map Byte.to_N bs) 0) as Hrel.
    rewrite Hs in Hrel. by destruct Hrel as [_ Hrel].
  - by rewrite length_map.
Qed.

(** The letter [a] followed by the byte FF, which no UTF-8 sequence holds. *)
Lemma decode_body_total_witness :
  exists text,
    decode_body [Byte.x61; Byte.xff] = Ok text /\ 65533 ∈ text.
Proof.
  apply (proj1 (proj2 (proj2 decode_body_total)) [Byte.x61; Byte.xff]
           UnicodeDecodeError).
  reflexivity.
Defined.

(** ** The crawler, run *)

Section CrawlerFacts.

Context `{Library}.
Variable web : nat -> list N -> response.

Lemma urljoin_empty base : urljoin base [] = base.
Proof. unfold urljoin. by destruct base. Qed.

(** [fetch] on a response and on a refusal. *)
Lemma fetch_response url w final_url content_type content_bytes :
  web (clock w) url = Response final_url content_type content_bytes ->
  fetch web url w
  = (Returns (final_url, content_type, Codec.decoded content_bytes,
              length content_bytes),
     after w 1 [Request url]).
Proof.
  intros Hweb. unfold fetch, bind, request, urlopen. rewrite Hweb.
  cbv beta iota zeta. rewrite Hweb. by rewrite decode_body_decoded.
Qed.

Lemma fetch_refused url w e :
  web (clock w) url = Refused e ->
  fetch web url w = (Raises (Codec.UrlError e), after w 1 [Request url]).
Proof.
  intros Hweb. unfold fetch, bind, request, urlopen. rewrite Hweb.
  cbv beta iota zeta. by rewrite Hweb.
Qed.

(** [fetch] on an address for which no request can be built, and on one
    for which [urlopen] or the reading raises an exception of another
    class. *)
Lemma fetch_malformed url w :
  web (clock w) url = Malformed ->
  fetch web url w = (Raises (Codec.Stray Codec.ValueError), w).
Proof. intros Hweb. unfold fetch, bind, request. by rewrite Hweb. Qed.

Lemma fetch_broken url w x :
  web (clock w) url = Broken x ->
  fetch web url w = (Raises (Codec.Stray x), after w 1 [Request url]).
Proof.
  intros Hweb. unfold fetch, bind, request, urlopen. rewrite Hweb.
  cbv beta iota zeta. by rewrite Hweb.
Qed.

Lemma print_lines_run lines : forall w,
  print_lines lines w
  = (Returns tt, after w 0 (map (fun l => Print (Line l)) lines)).
Proof.
  induction lines as [|l rest IH]; intros w.
  - unfold after. cbn. rewrite app_nil_r. by destruct w.
  - cbn [print_lines map]. unfold bind, print. rewrite IH.
    unfold after. cbn [clock log]. by rewrite <- app_assoc.
Qed.

Lemma stream_text_run url html w :
  stream_text url html w = (Returns tt, after w 0 (stream_log url html)).
Proof.
  unfold stream_text, stream_log, bind, print. rewrite print_lines_run.
  unfold after. cbn [clock log]. do 2 f_equal.
  rewrite <- !app_assoc. done.
Qed.

(** The loop over the links appends the followed ones, in order. *)
Lemma enqueue_filter links : forall queue,
  enqueue queue links = queue ++ filter (fun l => followed l = true) links.
Proof.
  induction links as [|link rest IH]; intros queue; cbn [enqueue].
  - by rewrite app_nil_r.
  - rewrite filter_cons. destruct (followed link) eqn:Hf.
    + rewrite decide_True by done. by rewrite IH, <- app_assoc.
    + rewrite decide_False by done. apply IH.
Qed.

(** One turn of the loop, by what the web answers. *)
Lemma visit_refused url queue w e :
  web (clock w) url = Refused e ->
  visit web url queue w
  = (Returns queue, after w 1 [Request url; Print (ErrorFetch url e)]).
Proof.
  intros Hweb. unfold visit, bind, try_url_error.
  rewrite (fetch_refused _ _ _ Hweb). unfold print, ret, after.
  cbn [clock log]. by rewrite <- app_assoc.
Qed.

Lemma visit_response url queue w final_url content_type content_bytes :
  web (clock w) url = Response final_url content_type content_bytes ->
  let text := Codec.decoded content_bytes in
  let links := extract_links final_url text in
  visit web url queue w
  = if skipped content_type
    then (Returns queue,
          after w 1 [Request url; Print (Skip final_url content_type)])
    else (Returns (enqueue queue links),
          after w 1
            ([Request url;
              Print (InfoFetched final_url (length content_bytes) content_type)]
             ++ stream_log final_url text
             ++ [Print (InfoFound (length links) final_url)])).
Proof.
  intros Hweb text links. unfold visit, bind, try_url_error.
  rewrite (fetch_response _ _ _ _ _ Hweb).
  destruct (skipped content_type).
  { unfold print, ret, after. cbn [clock log]. by rewrite <- app_assoc. }
  unfold print at 1. rewrite stream_text_run. unfold print, ret, after.
  cbn [clock log]. do 2 f_equal. by rewrite <- !app_assoc.
Qed.

(** [try_llms_txt], by what the web answers. *)
Lemma try_llms_txt_refused url w e :
  web (clock w) (llms_address url) = Refused e ->
  try_llms_txt web url w
  = (Returns false,
     after w 1 [Print (InfoChecking (llms_address url));
                Request (llms_address url); Print InfoNoLlms]).
Proof.
  intros Hweb. unfold try_llms_txt. fold (llms_address url).
  unfold bind at 1. unfold print at 1. unfold bind at 1.
  unfold try_url_error, bind. erewrite fetch_refused by exact Hweb.
  unfold print, ret, after. cbn [clock log]. by rewrite <- !app_assoc.
Qed.

Lemma try_llms_txt_response url w final_url content_type content_bytes :
  web (clock w) (llms_address url)
    = Response final_url content_type content_bytes ->
  let text := Codec.decoded content_bytes in
  try_llms_txt web url w
  = if negb (contains (py "text") (lower content_type)) || is_empty (strip text)
    then (Returns false,
          after w 1 [Print (InfoChecking (llms_address url));
                     Request (llms_address url); Print InfoNotText])
    else (Returns true,
          after w 1 [Print (InfoChecking (llms_address url));
                     Request (llms_address url);
                     Print HashRule;
                     Print (FoundAt final_url (length content_bytes));
                     Print HashRule; Print (Manifest text); Print HashRule;
                     Print InfoStopping; Print HashRule]).
Proof.
  intros Hweb text. unfold try_llms_txt. fold (llms_address url).
  unfold bind at 1. unfold print at 1. unfold bind at 1.
  unfold try_url_error. unfold bind at 1.
  erewrite fetch_response by exact Hweb. fold text.
  destruct (negb (contains (py "text") (lower content_type))
            || is_empty (strip text)).
  - unfold bind, print, ret, after. cbn [clock log]. by rewrite <- !app_assoc.
  - unfold bind, print, ret, after. cbn [clock log]. by rewrite <- !app_assoc.
Qed.

(** A turn of the loop and [try_llms_txt] when the fetch ends in an
    exception that is not caught. *)
Lemma visit_malformed url queue w :
  web (clock w) url = Malformed ->
  visit web url queue w = (Raises (Codec.Stray Codec.ValueError), w).
Proof.
  intros Hweb. unfold visit, bind, try_url_error.
  by rewrite (fetch_malformed _ _ Hweb).
Qed.

Lemma visit_broken url queue w x :
  web (clock w) url = Broken x ->
  visit web url queue w = (Raises (Codec.Stray x), after w 1 [Request url]).
Proof.
  intros Hweb. unfold visit, bind, try_url_error.
  by rewrite (fetch_broken _ _ _ Hweb).
Qed.

Lemma try_llms_txt_malformed url w :
  web (clock w) (llms_address url) = Malformed ->
  try_llms_txt web url w
  = (Raises (Codec.Stray Codec.ValueError),
     after w 0 [Print (InfoChecking (llms_address url))]).
Proof.
  intros Hweb. unfold try_llms_txt. fold (llms_address url).
  unfold bind at 1. unfold print at 1. unfold bind at 1.
  unfold try_url_error, bind. erewrite fetch_malformed by exact Hweb.
  done.
Qed.

Lemma try_llms_txt_broken url w x :
  web (clock w) (llms_address url) = Broken x ->
  try_llms_txt web url w
  = (Raises (Codec.Stray x),
     after w 1 [Print (InfoChecking (llms_address url));
                Request (llms_address url)]).
Proof.
  intros Hweb. unfold try_llms_txt. fold (llms_address url).
  unfold bind at 1. unfold print at 1. unfold bind at 1.
  unfold try_url_error, bind. erewrite fetch_broken by exact Hweb.
  unfold after. cbn [clock log]. by rewrite <- !app_assoc.
Qed.

(** The content-type test, read as a search that ignores letter case. *)
Lemma skipped_iff content_type :
  skipped content_type = true <->
  ci_in (py "text/css") content_type = true
  \/ (ci_in (py "html") content_type = false
      /\ ci_in (py "xml") content_type = false
      /\ ci_in (py "text") content_type = false).
Proof.
  unfold skipped. rewrite !contains_lower by reflexivity.
  destruct (ci_in (py "text/css") content_type),
    (ci_in (py "html") content_type),
    (ci_in (py "xml") content_type),
    (ci_in (py "text") content_type); cbn; intuition congruence.
Qed.

End CrawlerFacts.

(** ** The claims on the crawler *)

Section Claims.

Context `{Library}.
Variable web : nat -> list N -> response.

(** C7 (the code departs from it).  When the fetch of a queued address
    fails with [URLError] or [HTTPError], the turn of the loop reports the
    address and the error on the error stream and hands back the rest of
    the queue as it was; the loop then goes on with that rest, in the world
    that holds the one request and the one report.  When the fetch fails
    with an exception of another class, nothing is reported and nothing
    goes on: the exception leaves the turn, the loop and [crawl], and the
    addresses that wait are never asked for. *)
Theorem fetch_error_continues url queue w fuel :
  (forall e,
     web (clock w) url = Refused e ->
     let w' := after w 1 [Request url; Print (ErrorFetch url e)] in
     visit web url queue w = (Returns queue, w')
     /\ sink (ErrorFetch url e) = Stderr
     /\ crawl_loop web (S fuel) (url :: queue) w = crawl_loop web fuel queue w')
  /\ (forall x,
        web (clock w) url = Broken x ->
        let w' := after w 1 [Request url] in
        visit web url queue w = (Raises (Stray x), w')
        /\ crawl_loop web (S fuel) (url :: queue) w = (Raises (Stray x), w')
        /\ crawl web (S fuel) url false w = (Raises (Stray x), w'))
  /\ (web (clock w) url = Malformed ->
        visit web url queue w = (Raises (Stray ValueError), w)
        /\ crawl_loop web (S fuel) (url :: queue) w = (Raises (Stray ValueError), w)
        /\ crawl web (S fuel) url false w = (Raises (Stray ValueError), w)).
Proof.
  split; [|split].
  - intros e Hweb w'.
    pose proof (visit_refused web url queue w e Hweb) as Hvisit.
    split; [done|]. split; [done|].
    cbn [crawl_loop]. unfold bind. by rewrite Hvisit.
  - intros x Hweb w'. split; [by apply visit_broken|]. split.
    + cbn [crawl_loop]. unfold bind.
      by rewrite (visit_broken web url queue w x Hweb).
    + unfold crawl. unfold bind at 1. unfold ret at 1. unfold bind at 1.
      cbn [crawl_loop]. unfold bind at 1.
      by rewrite (visit_broken web url [] w x Hweb).
  - intros Hweb. split; [by apply visit_malformed|]. split.
    + cbn [crawl_loop]. unfold bind.
      by rewrite (visit_malformed web url queue w Hweb).
    + unfold crawl. unfold bind at 1. unfold ret at 1. unfold bind at 1.
      cbn [crawl_loop]. unfold bind at 1.
      by rewrite (visit_malformed web url [] w Hweb).
Qed.

(** C6.  A fetched page is skipped exactly when its content type holds
    [text/css], letter case apart, or none of [html], [xml], [text].  A
    skipped page adds the request and the skip report to the log and leaves
    the queue alone: nothing is streamed, no link is extracted or queued.
    Any other page is reported, streamed, and its links are extracted and
    queued. *)
Theorem content_type_gate url queue w final_url content_type content_bytes :
  web (clock w) url = Response final_url content_type content_bytes ->
  let text := decoded content_bytes in
  let links := extract_links final_url text in
  (skipped content_type = true <->
     ci_in (py "text/css") content_type = true
     \/ (ci_in (py "html") content_type = false
         /\ ci_in (py "xml") content_type = false
         /\ ci_in (py "text") content_type = false))
  /\ (skipped content_type = true ->
        visit web url queue w
        = (Returns queue,
           after w 1 [Request url; Print (Skip final_url content_type)]))
  /\ (skipped content_type = false ->
        visit web url queue w
        = (Returns (enqueue queue links),
           after w 1
             ([Request url;
               Print (InfoFetched final_url (length content_bytes) content_type)]
              ++ stream_log final_url text
              ++ [Print (InfoFound (length links) final_url)]))).
Proof.
  intros Hweb text links.
  pose proof (visit_response web url queue w _ _ _ Hweb) as Hvisit.
  cbn zeta in Hvisit. split; [apply skipped_iff|].
  split; intros Hskip; by rewrite Hskip in Hvisit.
Qed.

(** C4.  The loop over the links of a page appends every link whose scheme
    is [http] or [https] to the queue, whatever the queue holds; so does the
    turn of the loop for a page that is not skipped.  On a web where the
    page at [a] has [a] for its only link, every turn appends [a] again, the
    loop started on [a] is still going after any number of turns, and so is
    the crawl. *)
Theorem links_enqueued_unconditionally :
  (forall queue links,
     enqueue queue links = queue ++ filter (fun l => followed l = true) links)
  /\ (forall url queue w final_url content_type content_bytes,
        web (clock w) url = Response final_url content_type content_bytes ->
        skipped content_type = false ->
        (visit web url queue w).1
        = Returns (queue ++ filter (fun l => followed l = true)
                     (extract_links final_url (decoded content_bytes))))
  /\ (forall a,
        (forall n, self_linking web n a) ->
        (forall queue w, (visit web a queue w).1 = Returns (queue ++ [a]))
        /\ (forall fuel w, (crawl_loop web fuel [a] w).1 = Unfinished)
        /\ (forall fuel w, (crawl web fuel a false w).1 = Unfinished)).
Proof.
  split; [intros; apply enqueue_filter|].
  assert (Hvisit : forall url queue w final_url content_type content_bytes,
    web (clock w) url = Response final_url content_type content_bytes ->
    skipped content_type = false ->
    (visit web url queue w).1
    = Returns (queue ++ filter (fun l => followed l = true)
                 (extract_links final_url (decoded content_bytes)))).
  { intros url queue w final_url content_type content_bytes Hweb Hskip.
    rewrite (visit_response web url queue w _ _ _ Hweb). cbn zeta.
    rewrite Hskip. cbn [fst]. by rewrite enqueue_filter. }
  split; [exact Hvisit|]. intros a Hself.
  assert (Hturn : forall queue w, (visit web a queue w).1 = Returns (queue ++ [a])).
  { intros queue w.
    destruct (Hself (clock w)) as (fu & ct & bs & Hweb & Hskip & Hlinks & Hf).
    rewrite (Hvisit _ queue _ _ _ _ Hweb Hskip), Hlinks.
    by rewrite filter_cons_True. }
  assert (Hloop : forall fuel w, (crawl_loop web fuel [a] w).1 = Unfinished).
  { induction fuel as [|fuel IH]; intros w; [done|].
    cbn [crawl_loop]. unfold bind. specialize (Hturn [] w).
    destruct (visit web a [] w) as [r w']. cbn [fst] in Hturn. subst r.
    cbn [app]. apply IH. }
  split; [exact Hturn|]. split; [exact Hloop|].
  intros fuel w. unfold crawl. unfold bind at 1. unfold ret at 1.
  unfold bind at 1. specialize (Hloop fuel w).
  destruct (crawl_loop web fuel [a] w) as [r w']. cbn [fst] in Hloop. by subst r.
Qed.

(** C5 (the code departs from it).  [try_llms_txt] returns [False] exactly
    when the request fails with [URLError] or [HTTPError], or succeeds with
    a content type that does not hold [text], letter case apart, or with a
    body that is empty or all whitespace; it returns [True] exactly when
    the request succeeds with neither.  So it returns [False] for the
    content type [application/octet-stream], whatever the body, and for
    [text/plain] with a body of whitespace.  When the fetch fails with an
    exception of another class, [try_llms_txt] does not return [False]: it
    does not return, and the exception goes to its caller.  It makes one
    request at most. *)
Theorem try_llms_txt_verdict url w :
  exists r n events,
    try_llms_txt web url w = (r, after w n events)
    /\ (n <= 1)%nat
    /\ (r = Returns false <->
          (exists e, web (clock w) (llms_address url) = Refused e)
          \/ (exists final_url content_type content_bytes,
                web (clock w) (llms_address url)
                  = Response final_url content_type content_bytes
                /\ (ci_in (py "text") content_type = false
                    \/ forallb isspace (decoded content_bytes) = true)))
    /\ (r = Returns true <->
          exists final_url content_type content_bytes,
            web (clock w) (llms_address url)
              = Response final_url content_type content_bytes
            /\ ci_in (py "text") content_type = true
            /\ forallb isspace (decoded content_bytes) = false)
    /\ (forall x,
          r = Raises x <->
          (web (clock w) (llms_address url) = Malformed /\ x = Stray ValueError)
          \/ (exists y, web (clock w) (llms_address url) = Broken y
                        /\ x = Stray y))
    /\ (forall final_url content_bytes,
          web (clock w) (llms_address url)
            = Response final_url (py "application/octet-stream") content_bytes ->
          r = Returns false)
    /\ (forall final_url content_bytes,
          web (clock w) (llms_address url)
            = Response final_url (py "text/plain") content_bytes ->
          forallb isspace (decoded content_bytes) = true ->
          r = Returns false).
Proof.
  destruct (web (clock w) (llms_address url)) as [fu ct bs|e| |y] eqn:Hweb.
  - pose proof (try_llms_txt_response web url w _ _ _ Hweb) as Hrun.
    cbn zeta in Hrun. rewrite contains_lower in Hrun by reflexivity.
    rewrite strip_nil_iff in Hrun.
    destruct (ci_in (py "text") ct) eqn:Htext,
      (forallb isspace (decoded bs)) eqn:Hblank;
      cbn [negb orb] in Hrun; rewrite Hrun; eexists _, 1%nat, _;
      (split; [reflexivity|]); (split; [lia|]).
    + split; [split; [intros _; right; exists fu, ct, bs; tauto|done]|].
      split; [split; [done|]|].
      { intros (fu' & ct' & bs' & Heq & Ht & Hb).
        assert (bs = bs') as -> by congruence. congruence. }
      split; [split; [done|]|by auto].
      intros [[[=] _]|(y & [=] & _)].
    + split; [split; [done|]|].
      { intros [[e [=]]|(fu' & ct' & bs' & Heq & [Ht|Hb])].
        - assert (ct = ct') as -> by congruence. congruence.
        - assert (bs = bs') as -> by congruence. congruence. }
      split; [split; [intros _; exists fu, ct, bs; tauto|done]|].
      split; [split; [done|]|].
      { intros [[[=] _]|(y & [=] & _)]. }
      split.
      * intros fu' bs' Heq.
        assert (ct = py "application/octet-stream") as Hct by congruence.
        rewrite Hct in Htext. discriminate Htext.
      * intros fu' bs' Heq Hb. assert (bs = bs') as -> by congruence. congruence.
    + split; [split; [intros _; right; exists fu, ct, bs; tauto|done]|].
      split; [split; [done|]|].
      { intros (fu' & ct' & bs' & Heq & Ht & Hb).
        assert (ct = ct') as -> by congruence. congruence. }
      split; [split; [done|]|by auto].
      intros [[[=] _]|(y & [=] & _)].
    + split; [split; [intros _; right; exists fu, ct, bs; tauto|done]|].
      split; [split; [done|]|].
      { intros (fu' & ct' & bs' & Heq & Ht & Hb).
        assert (ct = ct') as -> by congruence. congruence. }
      split; [split; [done|]|by auto].
      intros [[[=] _]|(y & [=] & _)].
  - rewrite (try_llms_txt_refused web url w e Hweb).
    eexists _, 1%nat, _. split; [reflexivity|]. split; [lia|].
    split; [split; [intros _; left; by exists e|done]|].
    split; [split; [done|intros (? & ? & ? & [=] & _)]|].
    split; [|done]. intros x. split; [done|].
    intros [[[=] _]|(y & [=] & _)].
  - rewrite (try_llms_txt_malformed web url w Hweb).
    eexists _, 0%nat, _. split; [reflexivity|]. split; [lia|].
    split; [split; [done|intros [[e [=]]|(? & ? & ? & [=] & _)]]|].
    split; [split; [done|intros (? & ? & ? & [=] & _)]|].
    split; [|done]. intros x. split.
    + intros [= <-]. by left.
    + by intros [[_ ->]|(y & [=] & _)].
  - rewrite (try_llms_txt_broken web url w y Hweb).
    eexists _, 1%nat, _. split; [reflexivity|]. split; [lia|].
    split; [split; [done|intros [[e [=]]|(? & ? & ? & [=] & _)]]|].
    split; [split; [done|intros (? & ? & ? & [=] & _)]|].
    split; [|done]. intros x. split.
    + intros [= <-]. right. by exists y.
    + intros [[[=] _]|(y' & [= <-] & ->)]. done.
Qed.

(** C8, as amended.  [handle_starttag] passes over an [href] attribute whose
    value is the empty text as if it were not there, and adds nothing for a
    tag whose [href] attributes are all empty.  A value of whitespace that
    the pattern captures is trimmed to the empty text and resolved to the
    base address itself, which the fallback pass then adds; it captures the
    value of every such occurrence that no earlier match reaches into.  The
    parser pass does not pass over a value of whitespace: it adds [urljoin]
    of the base and the value, untrimmed, which for a non-empty base is what
    [resolve] makes of the two.  On an anchor with such a value the two
    passes add the same link exactly when [urljoin] of the base and the
    value is the base. *)
Theorem empty_and_blank_href :
  (forall base_url links tag before name after,
     handle_starttag base_url links tag (before ++ (name, Some []) :: after)
     = handle_starttag base_url links tag (before ++ after))
  /\ (forall base_url links tag attrs,
        Forall (fun a => lower a.1 = py "href" -> a.2 = Some []) attrs ->
        handle_starttag base_url links tag attrs = links)
  /\ (forall base_url html v,
        v ∈ findall html -> forallb isspace v = true ->
        strip v = []
        /\ urljoin base_url (strip v) = base_url
        /\ base_url ∈ fallback_links base_url html)
  /\ (forall base_url pre occ post v,
        occurrence occ v -> forallb isspace v = true ->
        unmatched_before (length pre) (pre ++ occ ++ post) ->
        fallback_links base_url (pre ++ occ ++ post)
        = base_url :: fallback_links base_url post)
  /\ (forall base_url links v,
        v <> [] -> forallb isspace v = true ->
        handle_starttag base_url links (py "a") [(py "href", Some v)]
        = links ++ [urljoin base_url v]
        /\ (is_empty base_url = false ->
            urljoin base_url v = resolve base_url v)
        /\ fallback_links base_url (py "href=" ++ [39] ++ v ++ [39])
           = [base_url]
        /\ (handle_starttag base_url [] (py "a") [(py "href", Some v)]
            = fallback_links base_url (py "href=" ++ [39] ++ v ++ [39])
            <-> urljoin base_url v = base_url)).
Proof.
  assert (Hfirst : forall before name after,
    first_href (before ++ (name, Some []) :: after) = first_href (before ++ after)).
  { intros before name after.
    induction before as [|[n v] before IH]; cbn [app first_href].
    - by rewrite andb_false_r.
    - by rewrite IH. }
  split.
  { intros. unfold handle_starttag. by rewrite Hfirst. }
  split.
  { intros base_url links tag attrs Hall. unfold handle_starttag.
    replace (first_href attrs) with (@None (list N));
      [by destruct (negb _)|].
    induction Hall as [|[n v] attrs Ha Hall IH]; cbn [first_href]; [done|].
    case_bool_decide as Hn; [|done]. cbn [fst snd] in Ha.
    by rewrite (Ha Hn). }
  split.
  { intros base_url html v Hv Hblank. rewrite (strip_blank v Hblank).
    split; [done|]. split; [apply urljoin_empty|].
    unfold fallback_links. apply list_elem_of_fmap. exists v.
    by rewrite (strip_blank v Hblank), urljoin_empty. }
  assert (Hreached : forall base_url pre occ post v,
    occurrence occ v -> forallb isspace v = true ->
    unmatched_before (length pre) (pre ++ occ ++ post) ->
    fallback_links base_url (pre ++ occ ++ post)
    = base_url :: fallback_links base_url post).
  { intros base_url pre occ post v Hocc Hblank Hun.
    unfold fallback_links. rewrite (findall_occurrence pre occ post v) by done.
    cbn [map]. by rewrite strip_blank, urljoin_empty. }
  split; [exact Hreached|].
  intros base_url links v Hv Hblank.
  assert (Htag : forall links',
    handle_starttag base_url links' (py "a") [(py "href", Some v)]
    = links' ++ [urljoin base_url v]).
  { intros links'. unfold handle_starttag.
    rewrite bool_decide_eq_true_2 by reflexivity.
    destruct v as [|c v]; [done|]. cbn [negb first_href].
    by rewrite bool_decide_eq_true_2 by reflexivity. }
  assert (Hpattern :
    fallback_links base_url (py "href=" ++ [39] ++ v ++ [39]) = [base_url]).
  { assert (Hocc : occurrence (py "href=" ++ [39] ++ v ++ [39]) v).
    { apply (Occurrence _ _ (py "href") [] [] 39 39); try done.
      - repeat constructor.
      - apply forallb_forall. intros c Hc.
        destruct (is_quote c) eqn:Hq; [|done].
        apply is_quote_not_space in Hq.
        pose proof (proj1 (forallb_forall _ _) Hblank c) as Hs.
        rewrite Hs in Hq; [done|exact Hc]. }
    pose proof (Hreached base_url [] _ [] v Hocc Hblank) as Hrun.
    cbn [app length] in Hrun. rewrite app_nil_r in Hrun.
    apply Hrun. intros i Hi. lia. }
  split; [apply Htag|]. split.
  { intros Hbase. unfold urljoin. rewrite Hbase. by destruct v. }
  split; [exact Hpattern|].
  rewrite Htag, Hpattern. cbn [app]. split; congruence.
Qed.

(** C1 (the code departs from it).  On a web where every request fails,
    [crawl] with the flag unset reports the start address, and then, the
    queue being empty, asks for [llms.txt] all the same and fetches the
    start address a second time; with the flag set it asks for [llms.txt]
    twice, before the loop and after it. *)
Theorem crawl_probes_after_loop e start_url fuel :
  crawl (Example.dead_web e) (S fuel) start_url false start
  = (Returns tt,
     {| clock := 3;
        log := [Request start_url; Print (ErrorFetch start_url e);
                Print (InfoChecking (llms_address start_url));
                Request (llms_address start_url); Print InfoNoLlms;
                Request start_url; Print (ErrorFetch start_url e)] |})
  /\ crawl (Example.dead_web e) (S fuel) start_url true start
     = (Returns tt,
        {| clock := 4;
           log := [Print (InfoChecking (llms_address start_url));
                   Request (llms_address start_url); Print InfoNoLlms;
                   Request start_url; Print (ErrorFetch start_url e);
                   Print (InfoChecking (llms_address start_url));
                   Request (llms_address start_url); Print InfoNoLlms;
                   Request start_url; Print (ErrorFetch start_url e)] |}).
Proof.
  assert (Hloop : forall w,
    crawl_loop (Example.dead_web e) (S fuel) [start_url] w
    = (Returns tt, after w 1 [Request start_url; Print (ErrorFetch start_url e)])).
  { intros w. cbn [crawl_loop]. unfold bind.
    rewrite (visit_refused _ start_url [] w e eq_refl). by destruct fuel. }
  split.
  - unfold crawl. unfold bind at 1. unfold ret at 1. unfold bind at 1.
    rewrite Hloop. unfold bind at 1.
    rewrite (try_llms_txt_refused _ start_url _ e eq_refl).
    by rewrite Hloop.
  - unfold crawl. unfold bind at 1.
    rewrite (try_llms_txt_refused _ start_url _ e eq_refl).
    unfold bind at 1. rewrite Hloop. unfold bind at 1.
    rewrite (try_llms_txt_refused _ start_url _ e eq_refl).
    by rewrite Hloop.
Qed.

End Claims.

(** ** The claims on the example webs *)

(** The web whose one page links to itself. *)
Lemma links_enqueued_unconditionally_witness :
  (forall n, @self_linking Example.library Example.loop_web n Example.home)
  /\ (@visit Example.library Example.loop_web Example.home [Example.home] start).1
     = Returns [Example.home; Example.home]
  /\ (@crawl_loop Example.library Example.loop_web 5 [Example.home] start).1
     = Unfinished.
Proof.
  assert (Hself : forall n,
    @self_linking Example.library Example.loop_web n Example.home).
  { intros n. eexists _, _, _. split; [reflexivity|].
    split; [reflexivity|]. split; vm_compute; reflexivity. }
  split; [exact Hself|].
  destruct (proj2 (proj2 (@links_enqueued_unconditionally
    Example.library Example.loop_web)) Example.home Hself) as (Hturn & Hloop & _).
  split; [apply (Hturn [Example.home] start)|apply (Hloop 5%nat start)].
Defined.

(** The web that answers with [application/octet-stream], and the web on
    which the fetch of an address with a blank ends in [InvalidURL]. *)
Lemma try_llms_txt_verdict_witness :
  (exists w',
     @try_llms_txt Example.library Example.blob_web Example.home start
     = (Returns false, w'))
  /\ (exists w',
        @try_llms_txt Example.library (Sample.broken_web InvalidURL)
          Sample.spaced start
        = (Raises (Stray InvalidURL), w')).
Proof.
  split.
  - destruct (@try_llms_txt_verdict Example.library Example.blob_web
                Example.home start)
      as (r & n & events & Hrun & _ & _ & _ & _ & Hblob & _).
    eexists. rewrite Hrun. f_equal.
    apply (Hblob (@llms_address Example.library Example.home)
             (Example.ascii_bytes "data")).
    reflexivity.
  - destruct (@try_llms_txt_verdict Example.library
                (Sample.broken_web InvalidURL) Sample.spaced start)
      as (r & n & events & Hrun & _ & _ & _ & Hraises & _).
    eexists. rewrite Hrun. f_equal.
    apply (Hraises (Stray InvalidURL)). right. by exists InvalidURL.
Defined.

(** The web that answers with a style sheet. *)
Lemma content_type_gate_witness :
  @visit Example.library Example.css_web Example.home [] start
  = (Returns [],
     after start 1 [Request Example.home;
                    Print (Skip Example.home (py "text/css"))]).
Proof.
  apply (proj1 (proj2 (@content_type_gate Example.library Example.css_web
    Example.home [] start Example.home (py "text/css")
    (Example.ascii_bytes "a{}") eq_refl))).
  reflexivity.
Defined.

(** The web on which every request is refused, with a second address
    waiting; and the web whose page names an address with a blank in it:
    the crawl ends in [InvalidURL] at its second request. *)
Lemma fetch_error_continues_witness :
  @crawl_loop Example.library (Example.dead_web (URLError []))
    2 [Example.home; py "http://h/next"] start
  = @crawl_loop Example.library (Example.dead_web (URLError []))
      1 [py "http://h/next"]
      (after start 1 [Request Example.home;
                      Print (ErrorFetch Example.home (URLError []))])
  /\ @crawl_loop Example.library Sample.spaced_web
       2 [Sample.spaced; py "http://h/next"] start
     = (Raises (Stray InvalidURL), after start 1 [Request Sample.spaced])
  /\ (@crawl Example.library Sample.spaced_web 5 Example.home false start).1
     = Raises (Stray InvalidURL).
Proof.
  split; [|split].
  - apply (proj2 (proj2 (proj1 (@fetch_error_continues Example.library
      (Example.dead_web (URLError []))
      Example.home [py "http://h/next"] start 1) (URLError []) eq_refl))).
  - apply (proj1 (proj2 (proj1 (proj2 (@fetch_error_continues Example.library
      Sample.spaced_web Sample.spaced [py "http://h/next"] start 1))
      InvalidURL eq_refl))).
  - vm_compute. reflexivity.
Defined.

(** The claim as it was stated fails twice.  In the text that reads
    [href=], a double quote, [a href=], a single quote, a blank, a single
    quote, the occurrence whose value is the blank lies inside an earlier
    match, and the fallback pass does not add the base address.  And where
    the blank is captured, the two passes do not disagree: with a [urljoin]
    that resolves a blank to the base, as the one of the library does, both
    add the base address. *)
Lemma empty_and_blank_href_counterexample :
  ~ (forall pre occ post v,
       occurrence occ v -> forallb isspace v = true ->
       Example.home
       ∈ @fallback_links Example.library Example.home (pre ++ occ ++ post))
  /\ @handle_starttag Example.library Example.home [] (py "a")
       [(py "href", Some (py " "))]
     = @fallback_links Example.library Example.home
         (py "href=" ++ [39] ++ py " " ++ [39]).
Proof.
  split; [|vm_compute; reflexivity].
  intros Hall.
  specialize (Hall (py "href=" ++ [34] ++ py "a ")
                   (py "href=" ++ [39] ++ py " " ++ [39]) [] (py " ")).
  assert (Hocc : occurrence (py "href=" ++ [39] ++ py " " ++ [39]) (py " ")).
  { apply (Occurrence _ _ (py "href") [] [] 39 39); try reflexivity.
    - repeat constructor.
    - discriminate. }
  apply Hall in Hocc; [|reflexivity]. vm_compute in Hocc.
  apply list_elem_of_singleton in Hocc. discriminate Hocc.
Qed.

(** An empty value, and a value of one space. *)
Lemma empty_and_blank_href_witness :
  @handle_starttag Example.library Example.home [] (py "a")
     [(py "href", Some []); (py "class", Some (py "c"))] = []
  /\ @fallback_links Example.library Example.home (py "href=' '") = [Example.home]
  /\ @handle_starttag Example.library Example.home [] (py "a")
       [(py "href", Some (py " "))] = [Example.home].
Proof.
  split; [|split].
  - apply (proj1 (proj2 (@empty_and_blank_href Example.library))).
    repeat constructor; cbn; try done;
      intros Hn; vm_compute in Hn; discriminate Hn.
  - apply (proj1 (proj2 (proj2 (proj2 (@empty_and_blank_href Example.library))))
      Example.home [] (py "href=' '") [] (py " ")
      ltac:(apply (Occurrence _ _ (py "href") [] [] 39 39);
            [reflexivity|repeat constructor|reflexivity..|discriminate|reflexivity])
      eq_refl ltac:(intros i Hi; simpl in Hi; lia)).
  - apply (proj1 (proj2 (proj2 (proj2 (proj2 (@empty_and_blank_href Example.library))))
      Example.home [] (py " ") ltac:(discriminate) eq_refl)).
Defined.

(** * More on the program *)

(** ** What [stream_text] prints *)

Lemma lstrip_suffix s : exists ws, s = ws ++ lstrip s.
Proof.
  induction s as [|c s [ws Hs]]; [by exists []|]. simpl.
  destruct (isspace c); [|by exists []].
  exists (c :: ws). simpl. congruence.
Qed.

Lemma rstrip_prefix s : exists ws, s = rstrip s ++ ws.
Proof.
  unfold rstrip. destruct (lstrip_suffix (rev s)) as [ws Hs].
  exists (rev ws). rewrite <- rev_app_distr, <- Hs. by rewrite rev_involutive.
Qed.

Lemma lstrip_lstrip s : lstrip (lstrip s) = lstrip s.
Proof.
  induction s as [|c s IH]; [done|]. simpl.
  destruct (isspace c) eqn:Hc; [done|]. simpl. by rewrite Hc.
Qed.

Lemma rstrip_rstrip s : rstrip (rstrip s) = rstrip s.
Proof. unfold rstrip. by rewrite rev_involutive, lstrip_lstrip. Qed.

Lemma rstrip_strip s : rstrip (strip s) = strip s.
Proof. unfold strip. apply rstrip_rstrip. Qed.

Lemma Forall_elem_of {A} (P : A -> Prop) l x : Forall P l -> x ∈ l -> P x.
Proof. intros Hall Hx. by apply (proj1 (Forall_forall P l) Hall x). Qed.



(** A line of [splitlines] is a stretch of the text. *)
Lemma splitlines_from_infix s : forall cur l,
  l ∈ splitlines_from cur s -> exists a b, rev cur ++ s = a ++ l ++ b.
Proof.
  induction s as [s IH] using (induction_ltof1 _ (@length N)).
  unfold ltof in IH. intros cur l Hl. destruct s as [|c rest].
  - simpl in Hl. destruct (is_empty cur); [by apply elem_of_nil in Hl|].
    apply list_elem_of_singleton in Hl as ->. by exists [], [].
  - cbn [splitlines_from] in Hl. destruct (is_linebreak c).
    + assert (Hhead : l = rev cur ->
        exists a b, rev cur ++ c :: rest = a ++ l ++ b).
      { intros ->. by exists [], (c :: rest). }
      destruct rest as [|d rest'].
      * apply list_elem_of_singleton in Hl. auto.
      * destruct ((c =? 13) && (d =? 10));
          apply elem_of_cons in Hl as [Hl|Hl]; auto.
        -- destruct (IH rest' ltac:(simpl; lia) [] l Hl) as (a & b & Hab).
           exists (rev cur ++ [c; d] ++ a), b. cbn [rev app] in Hab.
           rewrite Hab, <- !app_assoc. done.
        -- destruct (IH (d :: rest') ltac:(simpl; lia) [] l Hl) as (a & b & Hab).
           exists (rev cur ++ [c] ++ a), b. cbn [rev app] in Hab.
           rewrite Hab, <- !app_assoc. done.
    + destruct (IH rest ltac:(simpl; lia) (c :: cur) l Hl) as (a & b & Hab).
      exists a, b. rewrite <- Hab. cbn [rev]. by rewrite <- app_assoc.
Qed.


Lemma startswith_app s b pat :
  startswith s pat = true -> startswith (s ++ b) pat = true.
Proof.
  revert s. induction pat as [|p pat IH]; intros s; [by rewrite !startswith_nil|].
  destruct s as [|c s]; [done|]. simpl.
  intros [-> Hs]%andb_true_iff. simpl. by apply IH.
Qed.

(** A text found in a stretch is found in the whole. *)
Lemma contains_infix pat a s b :
  contains pat s = true -> contains pat (a ++ s ++ b) = true.
Proof.
  intros Hs. induction a as [|c a IH].
  - cbn [app]. induction s as [|c s IHs].
    + destruct pat as [|p pat]; [|done]. by destruct b.
    + cbn [app contains] in *. apply orb_true_iff in Hs as [Hs|Hs].
      * apply orb_true_iff. left. by apply (startswith_app (c :: s)).
      * apply orb_true_iff. right. by apply IHs.
  - cbn [app contains]. apply orb_true_iff. by right.
Qed.

Lemma lower_app s t : lower (s ++ t) = lower s ++ lower t.
Proof. induction s as [|c s IH]; simpl; [done|]. by rewrite IH, app_assoc. Qed.

(** A marker that the lowered text does not hold is in none of its lines. *)
Lemma contains_lower_line pat html raw :
  contains pat (lower html) = false ->
  raw ∈ splitlines html ->
  contains pat (lower (rstrip raw)) = false.
Proof.
  intros Hno Hraw. destruct (contains pat (lower (rstrip raw))) eqn:Hc; [|done].
  destruct (splitlines_from_infix html [] raw Hraw) as (a & b & Hab).
  destruct (rstrip_prefix raw) as [ws Hws]. cbn [rev app] in Hab.
  rewrite Hab, Hws, !lower_app, <- !app_assoc in Hno.
  by rewrite (contains_infix pat (lower a) (lower (rstrip raw)) _ Hc) in Hno.
Qed.




(** While [in_style] is set and no line holds the close marker, nothing is
    printed. *)
Lemma stream_loop_swallows lines :
  Forall (fun raw => contains style_close (lower (rstrip raw)) = false) lines ->
  stream_loop true lines = [].
Proof.
  induction 1 as [|raw lines Hraw Hlines IH]; [done|].
  cbn [stream_loop]. unfold stream_line. rewrite Hraw.
  destruct (is_empty (rstrip raw)); [done|].
  by destruct (contains style_open (lower (rstrip raw))).
Qed.

(** X2.  On a page whose text holds no close marker, a line with the open
    marker ends the output: neither that line nor any line after it is
    printed. *)
Theorem stream_lines_unterminated html before opening rest :
  contains style_close (lower html) = false ->
  splitlines html = before ++ opening :: rest ->
  contains style_open (lower (rstrip opening)) = true ->
  stream_lines html = stream_loop false before.
Proof.
  intros Hno Hsplit Hopen. unfold stream_lines. rewrite Hsplit.
  assert (Hall : Forall (fun raw => contains style_close (lower (rstrip raw)) = false)
                   (opening :: rest)).
  { apply Forall_forall. intros raw Hraw.
    apply (contains_lower_line _ html); [done|].
    rewrite Hsplit. apply elem_of_app. by right. }
  clear Hsplit. generalize false as in_style.
  induction before as [|raw before IH]; intros in_style.
  - cbn [app stream_loop]. apply Forall_cons in Hall as [Hopening Hrest].
    unfold stream_line. rewrite Hopen, Hopening.
    destruct (is_empty (rstrip opening)) eqn:He.
    { destruct (rstrip opening); [|done]. vm_compute in Hopen. done. }
    cbn [app]. by apply stream_loop_swallows.
  - cbn [app stream_loop]. destruct (stream_line in_style raw) as [b printed].
    by rewrite IH.
Qed.

(** A style block that is never closed, after one line of text. *)
Lemma stream_lines_unterminated_witness :
  stream_lines (py "title" ++ [10] ++ py "<style>" ++ [10] ++ py "p{}" ++ [10]
                ++ py "text")
  = [py "title"].
Proof.
  apply (stream_lines_unterminated _ [py "title"] (py "<style>")
           [py "p{}"; py "text"]); reflexivity.
Defined.

(** X3.  On a page whose text holds no open marker, every line that is not
    blank is printed, trimmed at its end, in order. *)
Theorem stream_lines_plain html :
  contains style_open (lower html) = false ->
  stream_lines html
  = filter (fun l => l <> []) (map rstrip (splitlines html)).
Proof.
  intros Hno. unfold stream_lines.
  assert (Hall : Forall (fun raw => contains style_open (lower (rstrip raw)) = false)
                   (splitlines html)).
  { apply Forall_forall. intros raw Hraw. by apply (contains_lower_line _ html). }
  induction Hall as [|raw lines Hraw Hlines IH]; [done|].
  cbn [stream_loop map]. unfold stream_line. rewrite Hraw, filter_cons.
  destruct (rstrip raw) as [|c line] eqn:Hr; cbn [is_empty].
  - rewrite decide_False by (by intros []). by rewrite IH.
  - rewrite decide_True by done. cbn [app]. by rewrite IH.
Qed.

(** Two lines of text around a blank one. *)
Lemma stream_lines_plain_witness :
  stream_lines (py "one  " ++ [10; 10] ++ py " two") = [py "one"; py " two"].
Proof.
  rewrite (stream_lines_plain (py "one  " ++ [10; 10] ++ py " two"));
    reflexivity.
Defined.

(** ** The two passes of [extract_links] *)

Section ExtractorMore.

Context `{Library}.

Lemma first_href_none before :
  Forall (fun a : list N * option (list N) =>
            lower a.1 = py "href" -> truthy a.2 = false) before ->
  forall after, first_href (before ++ after) = first_href after.
Proof.
  induction 1 as [|[n v] before Ha Hall IH]; intros after; [done|].
  cbn [app first_href]. cbn [fst snd] in Ha.
  case_bool_decide as Hn; [|by apply IH]. rewrite (Ha Hn). by apply IH.
Qed.

(** X4.  [handle_starttag] leaves the list alone for a tag that is no
    anchor, adds at most one link for an anchor, and takes the first [href]
    attribute with a value that is not empty: attributes after it do not
    count. *)
Theorem handle_starttag_first_href base_url links tag attrs :
  (lower tag <> py "a" -> handle_starttag base_url links tag attrs = links)
  /\ (exists added,
        handle_starttag base_url links tag attrs = links ++ added
        /\ (length added <= 1)%nat)
  /\ (forall before name v after,
        lower tag = py "a" ->
        attrs = before ++ (name, Some v) :: after ->
        lower name = py "href" -> v <> [] ->
        Forall (fun a => lower a.1 = py "href" -> truthy a.2 = false) before ->
        handle_starttag base_url links tag attrs
        = links ++ [urljoin base_url v]).
Proof.
  split; [|split].
  - intros Htag. unfold handle_starttag. by rewrite bool_decide_eq_false_2.
  - unfold handle_starttag. destruct (negb _).
    + exists []. split; [by rewrite app_nil_r|simpl; lia].
    + cbn zeta. destruct (truthy (first_href attrs)).
      * eexists [_]. split; [done|]. simpl. lia.
      * exists []. split; [by rewrite app_nil_r|simpl; lia].
  - intros before name v after Htag -> Hname Hv Hbefore.
    unfold handle_starttag. rewrite bool_decide_eq_true_2 by done.
    cbn [negb]. cbn zeta. rewrite first_href_none by done. cbn [first_href].
    rewrite bool_decide_eq_true_2 by done. by destruct v.
Qed.

Lemma first_seen_app (a b : list (list N)) :
  first_seen (a ++ b)
  = first_seen a ++ filter (fun l => l ∉ a) (first_seen b).
Proof.
  induction a as [|x a IH].
  - cbn [app first_seen]. by rewrite filter_not_elem_of_nil.
  - cbn [app first_seen]. rewrite IH, filter_app. do 2 f_equal.
    rewrite list_filter_filter. apply list_filter_iff. intros l.
    rewrite not_elem_of_cons. tauto.
Qed.

(** X5.  In the output of [extract_links] the links of the parser pass come
    first, each at its first occurrence; behind them come the links of the
    pattern pass that the parser pass did not find. *)
Theorem extract_links_parser_first base_url html :
  extract_links base_url html
  = first_seen (parser_links base_url html)
    ++ filter (fun l => l ∉ parser_links base_url html)
         (first_seen (fallback_links base_url html)).
Proof.
  unfold extract_links. rewrite (unique_loop_first_seen _ ∅ []) by set_solver.
  cbn [app]. by rewrite filter_not_elem_of_nil, first_seen_app.
Qed.

(** X6.  The pattern pass finds nothing in a text without a quote
    character: a value that is not quoted is left to the parser pass. *)
Theorem fallback_links_unquoted base_url html :
  forallb (fun c => negb (is_quote c)) html = true ->
  fallback_links base_url html = []
  /\ extract_links base_url html = first_seen (parser_links base_url html).
Proof.
  intros Hclean.
  assert (Hnone : findall html = []).
  { apply elem_of_nil_inv. intros v Hv.
    destruct (findall_sound html v Hv) as (pre & occ & post & -> & Hocc).
    destruct Hocc as [w ws1 ws2 q q' -> _ _ _ Hq _ _ _].
    rewrite !forallb_app in Hclean. cbn [forallb] in Hclean.
    rewrite Hq in Hclean. cbn [negb andb] in Hclean.
    by rewrite !andb_false_r in Hclean. }
  assert (Hfb : fallback_links base_url html = []).
  { unfold fallback_links. by rewrite Hnone. }
  split; [done|].
  unfold extract_links. rewrite Hfb, app_nil_r.
  rewrite (unique_loop_first_seen _ ∅ []) by set_solver.
  cbn [app]. by rewrite filter_not_elem_of_nil.
Qed.

End ExtractorMore.

(** An anchor with a class, an empty [href] and two more. *)
Lemma handle_starttag_first_href_witness :
  @handle_starttag Example.library Example.home [] (py "A")
    [(py "class", Some (py "c")); (py "href", Some []);
     (py "HREF", Some (py "one")); (py "href", Some (py "two"))]
  = [py "http://h/one"].
Proof.
  apply (proj2 (proj2 (@handle_starttag_first_href Example.library
    Example.home [] (py "A") _))
    [(py "class", Some (py "c")); (py "href", Some [])]
    (py "HREF") (py "one") [(py "href", Some (py "two"))]);
    [reflexivity|reflexivity|reflexivity|discriminate|].
  repeat constructor; cbn; try done;
    intros Hn; vm_compute in Hn; discriminate Hn.
Defined.

(** An anchor whose value stands without quotes. *)
Lemma fallback_links_unquoted_witness :
  @fallback_links Example.library Example.home (py "<a href=x>") = [].
Proof.
  apply (proj1 (@fallback_links_unquoted Example.library Example.home
                  (py "<a href=x>") eq_refl)).
Defined.

(** ** What [fetch] returns *)

(** The decoder gives at most one character for each byte. *)
Lemma utf8_loop_length bs : forall skip text,
  utf8_loop (Some Replace) skip bs = Ok text ->
  (length text <= length bs - skip)%nat.
Proof.
  induction bs as [|b0 rest IH]; intros skip text.
  - by intros [= <-].
  - cbn [utf8_loop]. destruct skip as [|k].
    + destruct (utf8_step b0 rest) as [c width|width];
        destruct (utf8_loop (Some Replace) (width - 1) rest) as [s|e] eqn:Hs;
        try done; intros [= <-]; apply IH in Hs; cbn [length]; lia.
    + intros Hs. apply IH in Hs. cbn [length]. lia.
Qed.

(** Bytes below 128 decode to themselves. *)
Lemma utf8_loop_ascii h bs :
  Forall (fun b => b < 128) bs -> utf8_loop h 0 bs = Ok bs.
Proof.
  induction 1 as [|b0 rest Hb Hrest IH]; [done|].
  cbn [utf8_loop]. unfold utf8_step.
  destruct (N.ltb_spec b0 128); [|lia]. cbn [Nat.sub]. by rewrite IH.
Qed.

Lemma decoded_utf8 bs :
  utf8_loop (Some Replace) 0 (map Byte.to_N bs) = Ok (decoded bs).
Proof. by rewrite <- decode_utf8_replace, <- decode_body_utf8, decode_body_decoded. Qed.

Section FetchMore.

Context `{Library}.
Variable web : nat -> list N -> response.

(** X7.  [fetch], by what comes of the address.  When [Request] raises
    [ValueError], [fetch] raises it and no request is made.  Otherwise it
    makes one request; an exception of [urlopen] or of the reading leaves
    [fetch] as it is, [URLError] and [HTTPError] like any other, and
    [fetch] raises nothing of its own, the decoding included.  When the
    web answers, [fetch] returns the address and the content type of the
    answer, the number of bytes of the body, and a text with at most that
    many characters, which for a body of ASCII bytes is the body itself. *)
Theorem fetch_outcome url w :
  (web (clock w) url = Malformed ->
   fetch web url w = (Raises (Stray ValueError), w))
  /\ (forall e,
        web (clock w) url = Refused e ->
        fetch web url w = (Raises (UrlError e), after w 1 [Request url]))
  /\ (forall x,
        web (clock w) url = Broken x ->
        fetch web url w = (Raises (Stray x), after w 1 [Request url]))
  /\ (forall final_url content_type content_bytes,
        web (clock w) url = Response final_url content_type content_bytes ->
        exists text,
          fetch web url w
          = (Returns (final_url, content_type, text, length content_bytes),
             after w 1 [Request url])
          /\ (length text <= length content_bytes)%nat
          /\ (Forall (fun b => Byte.to_N b < 128) content_bytes ->
              text = map Byte.to_N content_bytes)).
Proof.
  split; [by apply fetch_malformed|]. split; [by apply fetch_refused|].
  split; [by apply fetch_broken|].
  intros fu ct bs Hweb. exists (decoded bs).
  split; [by apply fetch_response|].
  pose proof (decoded_utf8 bs) as Hdec. split.
  - apply utf8_loop_length in Hdec. rewrite length_map in Hdec. lia.
  - intros Hascii.
    rewrite (utf8_loop_ascii (Some Replace) (map Byte.to_N bs)) in Hdec.
    + by injection Hdec.
    + by apply Forall_map.
Qed.

End FetchMore.

(** The page of the web that links to itself, and the address with a blank
    in it. *)
Lemma fetch_outcome_witness :
  (exists text,
     @fetch Example.loop_web Example.home start
     = (Returns (Example.home, py "text/html", text, 29%nat),
        after start 1 [Request Example.home])
     /\ text = py "<a href='http://h/'>again</a>")
  /\ @fetch Sample.spaced_web Sample.spaced start
     = (Raises (Stray InvalidURL), after start 1 [Request Sample.spaced]).
Proof.
  split.
  - destruct (proj2 (proj2 (proj2
      (@fetch_outcome Example.loop_web Example.home start))) _ _ _ eq_refl)
      as (text & Hrun & _ & Hascii).
    exists text. split; [exact Hrun|].
    rewrite Hascii; [reflexivity|]. vm_compute. repeat constructor.
  - apply (proj1 (proj2 (proj2
      (@fetch_outcome Sample.spaced_web Sample.spaced start))) InvalidURL).
    reflexivity.
Defined.

(** ** [try_llms_txt] *)

Lemma startswith_self_app s t : startswith (s ++ t) s = true.
Proof.
  induction s as [|c s IH]; [apply startswith_nil|].
  cbn [app startswith]. by rewrite N.eqb_refl, IH.
Qed.

Lemma endswith_app s suf : endswith (s ++ suf) suf = true.
Proof. unfold endswith. rewrite rev_app_distr. apply startswith_self_app. Qed.

Section ProbeMore.

Context `{Library}.
Variable web : nat -> list N -> response.

(** X8.  A slash at the end of the address makes no difference to
    [try_llms_txt]: with it or without it, the run is the same. *)
Theorem try_llms_txt_slash url w :
  endswith url (py "/") = false ->
  try_llms_txt web (url ++ py "/") w = try_llms_txt web url w.
Proof.
  intros Hno. unfold try_llms_txt. by rewrite endswith_app, Hno.
Qed.

(** X9.  When [try_llms_txt] returns, it has asked the web for one address.
    It returns [True] exactly when it has printed a manifest, and what it
    has printed then is the whole decoded body of the answer, with the
    address and the number of bytes of the answer. *)
Theorem try_llms_txt_manifest url w found w' :
  try_llms_txt web url w = (Returns found, w') ->
  exists events,
    w' = after w 1 events
    /\ requests events = [llms_address url]
    /\ (found = true <-> exists text, Print (Manifest text) ∈ events)
    /\ (found = true ->
        exists final_url content_type content_bytes,
          web (clock w) (llms_address url)
            = Response final_url content_type content_bytes
          /\ Print (FoundAt final_url (length content_bytes)) ∈ events
          /\ Print (Manifest (decoded content_bytes)) ∈ events).
Proof.
  destruct (web (clock w) (llms_address url)) as [fu ct bs|e| |x] eqn:Hweb.
  - rewrite (try_llms_txt_response web url w _ _ _ Hweb). cbn zeta.
    destruct (negb _ || _); intros [= <- <-].
    + eexists. split; [reflexivity|]. split; [reflexivity|].
      split; [|done]. split; [done|]. intros [text Hin].
      repeat (apply elem_of_cons in Hin as [Hin|Hin]; [discriminate Hin|]).
      by apply elem_of_nil in Hin.
    + eexists. split; [reflexivity|]. split; [reflexivity|]. split.
      * split; [|done]. intros _. eexists.
        do 5 right. left.
      * intros _. exists fu, ct, bs. split; [done|].
        split; [by do 3 right; left|by do 5 right; left].
  - rewrite (try_llms_txt_refused web url w e Hweb). intros [= <- <-].
    eexists. split; [reflexivity|]. split; [reflexivity|].
    split; [|done]. split; [done|]. intros [text Hin].
    repeat (apply elem_of_cons in Hin as [Hin|Hin]; [discriminate Hin|]).
    by apply elem_of_nil in Hin.
  - by rewrite (try_llms_txt_malformed web url w Hweb).
  - by rewrite (try_llms_txt_broken web url w x Hweb).
Qed.

End ProbeMore.

(** The address of the example with its slash taken off. *)
Lemma try_llms_txt_slash_witness :
  @try_llms_txt Example.library Example.blob_web (py "http://h" ++ py "/") start
  = @try_llms_txt Example.library Example.blob_web (py "http://h") start.
Proof.
  apply (@try_llms_txt_slash Example.library Example.blob_web
           (py "http://h") start).
  reflexivity.
Defined.

(** The web that answers with a manifest. *)
Lemma try_llms_txt_manifest_witness :
  exists events,
    (@try_llms_txt Example.library Sample.manifest_web Example.home start).2
    = after start 1 events
    /\ Print (Manifest (py "# site")) ∈ events.
Proof.
  destruct (@try_llms_txt_manifest Example.library Sample.manifest_web
              Example.home start true _ eq_refl)
    as (events & Hw & _ & _ & Hfound).
  exists events. split; [exact Hw|].
  destruct (Hfound eq_refl) as (fu & ct & bs & Hweb & _ & Hin).
  injection Hweb as <- <- <-. exact Hin.
Defined.

(** ** The loop of [crawl] *)

Lemma requests_app e1 e2 : requests (e1 ++ e2) = requests e1 ++ requests e2.
Proof.
  induction e1 as [|[url|m] e1 IH]; cbn [app requests]; [done| |done].
  by rewrite IH.
Qed.

Lemma requests_prints {A} (f : A -> message) l :
  requests (map (fun x => Print (f x)) l) = [].
Proof. by induction l. Qed.

Lemma requests_stream_log url html : requests (stream_log url html) = [].
Proof.
  unfold stream_log. rewrite !requests_app, (requests_prints Line). done.
Qed.

Lemma after_after w n1 e1 n2 e2 :
  after (after w n1 e1) n2 e2 = after w (n2 + n1) (e1 ++ e2).
Proof.
  unfold after. cbn [clock log]. f_equal; [lia|by rewrite app_assoc].
Qed.

Lemma after_nothing w : after w 0 [] = w.
Proof. destruct w. unfold after. cbn. by rewrite app_nil_r. Qed.

Section LoopMore.

Context `{Library}.
Variable web : nat -> list N -> response.

(** One turn of the loop: it returns after one request, or the fetch ends
    in an exception that is not caught. *)
Lemma visit_outcome url queue w :
  (exists added events,
     visit web url queue w = (Returns (queue ++ added), after w 1 events)
     /\ requests events = [url]
     /\ Forall (fun l => followed l = true) added)
  \/ (exists x,
        visit web url queue w = (Raises (Stray x), after w 1 [Request url]))
  \/ visit web url queue w = (Raises (Stray ValueError), after w 0 []).
Proof.
  destruct (web (clock w) url) as [fu ct bs|e| |x] eqn:Hweb.
  - left. rewrite (visit_response web url queue w _ _ _ Hweb). cbn zeta.
    destruct (skipped ct).
    + eexists [], _. rewrite app_nil_r. by repeat split.
    + rewrite enqueue_filter. eexists _, _. split; [reflexivity|]. split.
      * cbn [app requests]. by rewrite requests_app, requests_stream_log.
      * apply Forall_forall. by intros l [Hl _]%list_elem_of_filter.
  - left. rewrite (visit_refused web url queue w e Hweb).
    eexists [], _. rewrite app_nil_r. by repeat split.
  - right. right. rewrite after_nothing. by apply visit_malformed.
  - right. left. exists x. by apply visit_broken.
Qed.

(** [try_llms_txt]: it returns after one request, or the fetch ends in an
    exception that is not caught. *)
Lemma try_llms_txt_outcome url w :
  (exists found events,
     try_llms_txt web url w = (Returns found, after w 1 events)
     /\ requests events = [llms_address url])
  \/ (exists x n events,
        try_llms_txt web url w = (Raises (Stray x), after w n events)).
Proof.
  destruct (web (clock w) (llms_address url)) as [fu ct bs|e| |x] eqn:Hweb.
  - left. rewrite (try_llms_txt_response web url w _ _ _ Hweb). cbn zeta.
    destruct (negb _ || _); by eexists _, _.
  - left. rewrite (try_llms_txt_refused web url w e Hweb). by eexists _, _.
  - right. rewrite (try_llms_txt_malformed web url w Hweb). by eexists _, _, _.
  - right. rewrite (try_llms_txt_broken web url w x Hweb). by eexists _, _, _.
Qed.

(** The loop ends, is cut off, or is left by an exception that is not
    caught; unless it is left so, its first request is for the address at
    the head of the queue. *)
Lemma crawl_loop_shape fuel : forall queue w,
  exists r n events,
    crawl_loop web fuel queue w = (r, after w n events)
    /\ (r = Returns tt \/ r = Unfinished \/ exists x, r = Raises (Stray x))
    /\ (forall url rest fuel', queue = url :: rest -> fuel = S fuel' ->
        r = Returns tt \/ r = Unfinished ->
        exists more, requests events = url :: more).
Proof.
  induction fuel as [|fuel IH]; intros queue w.
  - destruct queue as [|url queue].
    + exists (Returns tt), 0%nat, []. rewrite after_nothing.
      split; [done|]. split; [by left|]. done.
    + exists Unfinished, 0%nat, []. rewrite after_nothing.
      split; [done|]. split; [by right; left|]. done.
  - destruct queue as [|url queue].
    + exists (Returns tt), 0%nat, []. rewrite after_nothing.
      split; [done|]. split; [by left|]. done.
    + cbn [crawl_loop]. unfold bind.
      destruct (visit_outcome url queue w)
        as [(added & ev & -> & Hreq & _)|[[x ->]| ->]].
      * destruct (IH (queue ++ added) (after w 1 ev))
          as (r & n & ev' & -> & Hr & _).
        exists r, (n + 1)%nat, (ev ++ ev'). rewrite after_after.
        split; [by destruct r as [[]| |]|]. split; [done|].
        intros ? ? ? [= <- <-] _ _. rewrite requests_app, Hreq. by eexists.
      * eexists _, _, _. split; [reflexivity|].
        split; [right; right; by exists x|].
        intros ? ? ? _ _ [[=]|[=]].
      * eexists _, _, _. split; [reflexivity|].
        split; [right; right; by exists ValueError|].
        intros ? ? ? _ _ [[=]|[=]].
Qed.

(** X10.  When a turn of the loop returns, it has made one request, for
    the address taken off the queue; it has left the addresses that wait
    where they are and put behind them only addresses whose scheme is
    [http] or [https], none at all when the fetch failed. *)
Theorem visit_turn url queue w queue' w' :
  visit web url queue w = (Returns queue', w') ->
  exists added events,
    queue' = queue ++ added
    /\ w' = after w 1 events
    /\ requests events = [url]
    /\ Forall (fun l => followed l = true) added
    /\ (forall e, web (clock w) url = Refused e -> added = []).
Proof.
  intros Hrun.
  destruct (visit_outcome url queue w)
    as [(added & ev & Hvisit & Hreq & Hadded)|[[x Hvisit]|Hvisit]];
    rewrite Hvisit in Hrun; [|discriminate Hrun..].
  injection Hrun as <- <-. exists added, ev.
  split; [done|]. split; [done|]. split; [done|]. split; [done|].
  intros e Hweb. rewrite (visit_refused web url queue w e Hweb) in Hvisit.
  injection Hvisit as Hq _.
  apply (f_equal length) in Hq. rewrite length_app in Hq.
  destruct added; [done|]. simpl in Hq. lia.
Qed.

(** X11.  No [URLError] and no [HTTPError] comes out of [crawl]: every fetch
    of the loop and of [try_llms_txt] sits in a handler for them.  Neither
    does an error of the decoding. *)
Theorem crawl_catches_url_errors fuel start_url check_llms w :
  (forall e, (crawl web fuel start_url check_llms w).1 <> Raises (UrlError e))
  /\ (crawl web fuel start_url check_llms w).1 <> Raises LookupError
  /\ (crawl web fuel start_url check_llms w).1 <> Raises UnicodeDecodeError.
Proof.
  assert (Hstray : forall x,
    (crawl web fuel start_url check_llms w).1 = Raises x ->
    exists s, x = Stray s).
  { intros x. unfold crawl. unfold bind at 1.
    assert (Hfirst :
      (exists found n events,
         (if check_llms then try_llms_txt web start_url else ret false) w
         = (Returns found, after w n events))
      \/ (exists s n events,
            (if check_llms then try_llms_txt web start_url else ret false) w
            = (Raises (Stray s), after w n events))).
    { destruct check_llms.
      - destruct (try_llms_txt_outcome start_url w)
          as [(found & ev & -> & _)|(s & n & ev & ->)].
        + left. by eexists _, _, _.
        + right. by eexists _, _, _.
      - left. exists false, 0%nat, []. by rewrite after_nothing. }
    destruct Hfirst as [(found & n & ev & ->)|(s & n & ev & ->)].
    2: { intros [= <-]. by exists s. }
    destruct found; [done|]. unfold bind at 1.
    destruct (crawl_loop_shape fuel [start_url] (after w n ev))
      as (r1 & n1 & ev1 & -> & [-> |[-> |[s ->]]] & _).
    2: done.
    2: { intros [= <-]. by exists s. }
    unfold bind at 1.
    destruct (try_llms_txt_outcome start_url (after (after w n ev) n1 ev1))
      as [(found' & ev2 & -> & _)|(s & n2 & ev2 & ->)].
    2: { intros [= <-]. by exists s. }
    destruct found'; [done|].
    destruct (crawl_loop_shape fuel [start_url]
                (after (after (after w n ev) n1 ev1) 1 ev2))
      as (r3 & n3 & ev3 & -> & [-> |[-> |[s ->]]] & _); [done..|].
    intros [= <-]. by exists s. }
  split; [|split].
  - intros e He. by destruct (Hstray _ He).
  - intros He. by destruct (Hstray _ He).
  - intros He. by destruct (Hstray _ He).
Qed.

(** X12.  When the fetch of every address of the queue fails with
    [URLError] or [HTTPError], the loop asks for each address once, in the
    order of the queue, reports each, and ends, given fuel for as many turns
    as the queue is long. *)
Theorem crawl_loop_all_refused fuel : forall queue w,
  (forall n url, url ∈ queue -> exists e, web n url = Refused e) ->
  (length queue <= fuel)%nat ->
  exists events,
    crawl_loop web fuel queue w = (Returns tt, after w (length queue) events)
    /\ requests events = queue
    /\ (forall url, url ∈ queue -> exists e, Print (ErrorFetch url e) ∈ events).
Proof.
  induction fuel as [|fuel IH]; intros queue w Hdead Hlen.
  - destruct queue; [|simpl in Hlen; lia].
    exists []. rewrite after_nothing. split; [done|]. split; [done|].
    by intros url Hin%elem_of_nil.
  - destruct queue as [|url queue].
    { exists []. rewrite after_nothing. split; [done|]. split; [done|].
      by intros url Hin%elem_of_nil. }
    cbn [crawl_loop]. unfold bind.
    destruct (Hdead (clock w) url) as [e Hweb]; [by left|].
    rewrite (visit_refused web url queue w e Hweb).
    destruct (IH queue (after w 1 [Request url; Print (ErrorFetch url e)]))
      as (ev & -> & Hreq & Hreported); [|simpl in Hlen; lia|].
    { intros n url' Hin. apply Hdead. by right. }
    eexists. rewrite after_after. split; [|split].
    + do 2 f_equal. cbn [length]. lia.
    + rewrite requests_app, Hreq. done.
    + intros url' [->|Hin]%elem_of_cons.
      * exists e. apply elem_of_app. left. right. by left.
      * destruct (Hreported url' Hin) as [e' He']. exists e'.
        apply elem_of_app. by right.
Qed.

(** X13.  With the flag set and a manifest at hand, [crawl] returns after
    the one request of [try_llms_txt], whatever the fuel: the loop does not
    start and the start address is not fetched. *)
Theorem crawl_stops_at_manifest fuel start_url w
    final_url content_type content_bytes :
  web (clock w) (llms_address start_url)
    = Response final_url content_type content_bytes ->
  ci_in (py "text") content_type = true ->
  forallb isspace (decoded content_bytes) = false ->
  exists events,
    crawl web fuel start_url true w = (Returns tt, after w 1 events)
    /\ requests events = [llms_address start_url].
Proof.
  intros Hweb Hct Hbody. unfold crawl. unfold bind at 1.
  rewrite (try_llms_txt_response web start_url w _ _ _ Hweb). cbn zeta.
  rewrite contains_lower by reflexivity. rewrite strip_nil_iff, Hct, Hbody.
  cbn [negb orb]. by eexists.
Qed.

(** X14.  With the flag unset, [crawl] does not return without having
    fetched the start address and, after that, asked for [llms.txt]. *)
Theorem crawl_returns_after_probe fuel start_url w w' :
  crawl web fuel start_url false w = (Returns tt, w') ->
  exists n events before behind,
    w' = after w n events
    /\ requests events
       = start_url :: before ++ llms_address start_url :: behind.
Proof.
  unfold crawl. unfold bind at 1. unfold ret at 1. unfold bind at 1.
  destruct (crawl_loop_shape fuel [start_url] w)
    as (r1 & n1 & ev1 & Hrun1 & Hr1 & Hhead).
  rewrite Hrun1. destruct Hr1 as [-> |[-> |[x ->]]]; [|done..].
  destruct fuel as [|fuel'].
  { cbn [crawl_loop] in Hrun1. discriminate Hrun1. }
  destruct (Hhead start_url [] fuel' eq_refl eq_refl) as [more Hmore];
    [by left|].
  unfold bind at 1.
  destruct (try_llms_txt_outcome start_url (after w n1 ev1))
    as [(found & ev2 & -> & Hreq2)|(x & n2 & ev2 & ->)]; [|done].
  destruct found.
  - intros [= <-]. exists (1 + n1)%nat, (ev1 ++ ev2), more, [].
    rewrite after_after. split; [done|].
    by rewrite requests_app, Hmore, Hreq2.
  - destruct (crawl_loop_shape (S fuel') [start_url]
                (after (after w n1 ev1) 1 ev2))
      as (r3 & n3 & ev3 & -> & _ & _).
    intros [= -> <-].
    exists (n3 + (1 + n1))%nat, (ev1 ++ ev2 ++ ev3), more, (requests ev3).
    rewrite !after_after. split; [f_equal; lia|].
    by rewrite !requests_app, Hmore, Hreq2.
Qed.

(** X15.  A page that comes without a content type is skipped by the loop,
    and a manifest that comes without one is turned down. *)
Theorem missing_content_type url queue w
    page_url page_bytes probe_url probe_bytes :
  web (clock w) url = Response page_url [] page_bytes ->
  web (clock w) (llms_address url) = Response probe_url [] probe_bytes ->
  visit web url queue w
  = (Returns queue, after w 1 [Request url; Print (Skip page_url [])])
  /\ try_llms_txt web url w
     = (Returns false,
        after w 1 [Print (InfoChecking (llms_address url));
                   Request (llms_address url); Print InfoNotText]).
Proof.
  intros Hpage Hprobe. split.
  - by rewrite (visit_response web url queue w _ _ _ Hpage).
  - by rewrite (try_llms_txt_response web url w _ _ _ Hprobe).
Qed.

(** X16.  The loop is first in, first out: the addresses that wait are
    requested in their order, before any address found on the way, given
    fuel for as many turns as there are addresses waiting.  A run that an
    exception cuts short has requested the waiting addresses in their order
    up to the one at which it stopped. *)
Theorem crawl_loop_first_in_first_out fuel : forall queue behind w,
  (length queue <= fuel)%nat ->
  exists r n events,
    crawl_loop web fuel (queue ++ behind) w = (r, after w n events)
    /\ ((exists more, requests events = queue ++ more)
        \/ (exists x rest, r = Raises x /\ queue = requests events ++ rest)).
Proof.
  induction fuel as [|fuel IH]; intros queue behind w Hlen.
  - destruct queue; [|simpl in Hlen; lia]. cbn [app].
    destruct (crawl_loop_shape 0 behind w) as (r & n & ev & Hrun & _).
    exists r, n, ev. split; [done|]. left. by exists (requests ev).
  - destruct queue as [|url queue]; cbn [app].
    { destruct (crawl_loop_shape (S fuel) behind w) as (r & n & ev & Hrun & _).
      exists r, n, ev. split; [done|]. left. by exists (requests ev). }
    cbn [crawl_loop]. unfold bind.
    destruct (visit_outcome url (queue ++ behind) w)
      as [(added & ev & -> & Hreq & _)|[[x ->]| ->]].
    + rewrite <- app_assoc.
      destruct (IH queue (behind ++ added) (after w 1 ev))
        as (r & n & ev' & -> & Horder); [simpl in Hlen; lia|].
      exists r, (n + 1)%nat, (ev ++ ev'). rewrite after_after.
      split; [by destruct r as [[]| |]|].
      rewrite requests_app, Hreq. cbn [app].
      destruct Horder as [[more ->]|(x & rest & -> & ->)].
      * left. by exists more.
      * right. by exists x, rest.
    + eexists _, _, _. split; [reflexivity|]. right.
      by exists (Stray x), queue.
    + eexists _, _, _. split; [reflexivity|]. right.
      by exists (Stray ValueError), (url :: queue).
Qed.

(** X17.  The loop requests no address other than those it was started with
    and addresses whose scheme is [http] or [https]: a link with another
    scheme found on a page is never fetched. *)
Theorem crawl_loop_requests_followed fuel : forall queue w,
  exists r n events,
    crawl_loop web fuel queue w = (r, after w n events)
    /\ forall url, url ∈ requests events ->
         url ∈ queue \/ followed url = true.
Proof.
  induction fuel as [|fuel IH]; intros queue w.
  - destruct queue as [|url queue]; eexists _, 0%nat, [];
      rewrite after_nothing; (split; [reflexivity|]);
      by intros url' Hin%elem_of_nil.
  - destruct queue as [|url queue].
    { eexists _, 0%nat, []. rewrite after_nothing. split; [reflexivity|].
      by intros url' Hin%elem_of_nil. }
    cbn [crawl_loop]. unfold bind.
    destruct (visit_outcome url queue w)
      as [(added & ev & -> & Hreq & Hadded)|[[x ->]| ->]].
    + destruct (IH (queue ++ added) (after w 1 ev)) as (r & n & ev' & -> & Hall).
      exists r, (n + 1)%nat, (ev ++ ev'). rewrite after_after.
      split; [by destruct r as [[]| |]|].
      intros url'. rewrite requests_app, Hreq. cbn [app].
      intros [->|Hin]%elem_of_cons; [left; by left|].
      destruct (Hall url' Hin) as [[Hq|Ha]%elem_of_app|Hf].
      * left. by right.
      * right. exact (Forall_elem_of (fun l => followed l = true) added url' Hadded Ha).
      * by right.
    + eexists _, _, _. split; [reflexivity|].
      intros url' Hin. left. cbn [requests] in Hin.
      apply list_elem_of_singleton in Hin as ->. by left.
    + eexists _, _, _. split; [reflexivity|].
      by intros url' Hin%elem_of_nil.
Qed.

End LoopMore.

(** The web whose one page links to itself: the address goes behind the one
    that waits. *)
Lemma visit_turn_witness :
  exists added events,
    [py "http://h/w"; Example.home] = [py "http://h/w"] ++ added
    /\ (@visit Example.library Example.loop_web Example.home
          [py "http://h/w"] start).2 = after start 1 events
    /\ requests events = [Example.home].
Proof.
  destruct (@visit_turn Example.library Example.loop_web Example.home
              [py "http://h/w"] start [py "http://h/w"; Example.home] _ eq_refl)
    as (added & events & Hq & Hw & Hreq & _).
  by exists added, events.
Defined.

(** Three addresses on the web on which every request is refused. *)
Lemma crawl_loop_all_refused_witness :
  exists events,
    @crawl_loop Example.library (Example.dead_web (URLError [])) 3
      [py "http://h/a"; py "http://h/b"; py "http://h/c"] start
    = (Returns tt, after start 3 events)
    /\ requests events = [py "http://h/a"; py "http://h/b"; py "http://h/c"].
Proof.
  destruct (@crawl_loop_all_refused Example.library
              (Example.dead_web (URLError [])) 3
              [py "http://h/a"; py "http://h/b"; py "http://h/c"] start)
    as (events & Hrun & Hreq & _).
  - intros n url _. by exists (URLError []).
  - simpl. lia.
  - by exists events.
Defined.

(** The web that answers with a manifest, and no fuel at all. *)
Lemma crawl_stops_at_manifest_witness :
  exists events,
    @crawl Example.library Sample.manifest_web 0 Example.home true start
    = (Returns tt, after start 1 events)
    /\ requests events = [@llms_address Example.library Example.home].
Proof.
  apply (@crawl_stops_at_manifest Example.library Sample.manifest_web 0
           Example.home start _ _ _ eq_refl); reflexivity.
Defined.

(** The web on which every request is refused: three requests. *)
Lemma crawl_returns_after_probe_witness :
  exists n events before behind,
    (@crawl Example.library (Example.dead_web (URLError [])) 1
       Example.home false start).2 = after start n events
    /\ requests events
       = Example.home :: before
         ++ @llms_address Example.library Example.home :: behind.
Proof.
  apply (@crawl_returns_after_probe Example.library
           (Example.dead_web (URLError [])) 1 Example.home start).
  reflexivity.
Defined.

(** The web that answers without a content type. *)
Lemma missing_content_type_witness :
  @visit Example.library Sample.bare_web Example.home [] start
  = (Returns [], after start 1 [Request Example.home; Print (Skip Example.home [])])
  /\ @try_llms_txt Example.library Sample.bare_web Example.home start
     = (Returns false,
        after start 1
          [Print (InfoChecking (@llms_address Example.library Example.home));
           Request (@llms_address Example.library Example.home);
           Print InfoNotText]).
Proof.
  apply (@missing_content_type Example.library Sample.bare_web
           Example.home [] start _ _ _ _ eq_refl eq_refl).
Defined.

(** Two addresses wait on the web whose one page links to itself; and on
    the web where the first of two cannot be asked for, the run stops
    there. *)
Lemma crawl_loop_first_in_first_out_witness :
  (exists r n events,
     @crawl_loop Example.library Example.loop_web 2
       ([py "http://h/a"; py "http://h/b"] ++ []) start
     = (r, after start n events)
     /\ ((exists more,
            requests events = [py "http://h/a"; py "http://h/b"] ++ more)
         \/ (exists x rest,
               r = Raises x
               /\ [py "http://h/a"; py "http://h/b"] = requests events ++ rest)))
  /\ (exists r n events,
        @crawl_loop Example.library Sample.spaced_web 2
          ([Sample.spaced; py "http://h/b"] ++ []) start
        = (r, after start n events)
        /\ ((exists more,
               requests events = [Sample.spaced; py "http://h/b"] ++ more)
            \/ (exists x rest,
                  r = Raises x
                  /\ [Sample.spaced; py "http://h/b"] = requests events ++ rest))).
Proof.
  split.
  - apply (@crawl_loop_first_in_first_out Example.library Example.loop_web 2
             [py "http://h/a"; py "http://h/b"] [] start).
    simpl. lia.
  - apply (@crawl_loop_first_in_first_out Example.library Sample.spaced_web 2
             [Sample.spaced; py "http://h/b"] [] start).
    simpl. lia.
Defined.

(** ** The prompts of [main] *)

Lemma lstrip_length s : (length (lstrip s) <= length s)%nat.
Proof.
  induction s as [|c s IH]; [done|]. simpl.
  destruct (isspace c); simpl; lia.
Qed.

Lemma lstrip_prefix_fixed a b : lstrip (a ++ b) = a ++ b -> lstrip a = a.
Proof.
  destruct a as [|c a]; [done|]. cbn [app lstrip].
  destruct (isspace c); [|done]. intros Heq.
  pose proof (lstrip_length (a ++ b)) as Hlen. rewrite Heq in Hlen.
  simpl in Hlen. lia.
Qed.

Lemma strip_strip s : strip (strip s) = strip s.
Proof.
  assert (Hfixed : lstrip (strip s) = strip s).
  { destruct (rstrip_prefix (lstrip s)) as [ws Hws]. fold (strip s) in Hws.
    apply (lstrip_prefix_fixed (strip s) ws). rewrite <- Hws.
    apply lstrip_lstrip. }
  unfold strip at 1. rewrite Hfixed. apply rstrip_strip.
Qed.

Lemma lower_nil s : lower s = [] -> s = [].
Proof.
  destruct s as [|c s]; [done|]. cbn [lower]. unfold lower_cp.
  destruct ((65 <=? c) && (c <=? 90)); [done|].
  destruct (c =? 304); [done|]. by destruct (c =? 8490).
Qed.

(** The texts whose lowercase form is the letter [y]. *)
Lemma lower_y s : lower s = [121] <-> s = [121] \/ s = [89].
Proof.
  split; [|by intros [-> | ->]].
  destruct s as [|c s]; [done|]. cbn [lower]. unfold lower_cp.
  destruct ((65 <=? c) && (c <=? 90)) eqn:Hup.
  - cbn [app]. intros [= Hc Hs]. apply lower_nil in Hs as ->.
    right. f_equal. lia.
  - destruct (N.eqb_spec c 304); [done|].
    destruct (N.eqb_spec c 8490); [done|].
    cbn [app]. intros [= -> Hs]. apply lower_nil in Hs as ->. by left.
Qed.

(** X18.  [main] at its two prompts.  When the address typed is empty or
    blank, it says so and returns: the second question is not asked.
    Otherwise it asks the second question; the flag is set exactly when the
    answer, blanks at its ends apart, is the letter y, small or capital;
    the address it goes on with is the one typed without the blanks at its
    ends, so it is not empty and has no blank at either end. *)
Theorem main_prompts typed_url typed_choice :
  let banner := [PressCtrlC; WebBanner; CrawlerBanner; Title; PressCtrlC; AskUrl] in
  if forallb isspace typed_url
  then main_asks typed_url typed_choice = (banner ++ [NoUrlProvided], None)
  else exists start_url check_llms,
    main_asks typed_url typed_choice
    = (banner ++ [AskLlms], Some (start_url, check_llms))
    /\ (check_llms = true
        <-> strip typed_choice = py "y" \/ strip typed_choice = py "Y")
    /\ start_url = strip typed_url
    /\ start_url <> []
    /\ strip start_url = start_url.
Proof.
  intros banner. unfold main_asks.
  rewrite (strip_nil_iff typed_url).
  destruct (forallb isspace typed_url) eqn:Hblank; [done|].
  eexists _, _. split; [reflexivity|]. split.
  { rewrite bool_decide_eq_true. apply lower_y. }
  split; [done|]. split; [|apply strip_strip].
  intros Hnil. pose proof (strip_nil_iff typed_url) as Hs.
  rewrite Hnil, Hblank in Hs. done.
Qed.
